(** * privexctl: the readiness-driven relay of [src/tools/privexctl.c]

    A shallow embedding of the C program.  The three file-scope variables
    become a record that every function threads through; each call that
    leaves the process (system calls, stdio) is answered by an environment
    and appended to a trace, so that properties of the program are
    properties of the traces it can produce. *)

From Stdlib Require Import ZArith String Ascii Bool List Lia.
From Stdlib Require Import Init.Byte.
Import ListNotations.
Open Scope Z_scope.

(** ** Machine integers *)

Definition EXIT_SUCCESS : Z := 0.
Definition EXIT_FAILURE : Z := 1.

(** [size_t] is 64 bits wide, [int] 32, [uint16_t] 16. *)
Definition SIZE_MOD : Z := 2 ^ 64.
Definition to_size_t (z : Z) : Z := z mod SIZE_MOD.
Definition to_uint16 (z : Z) : Z := z mod 2 ^ 16.
Definition to_int (z : Z) : Z := (z + 2 ^ 31) mod 2 ^ 32 - 2 ^ 31.
Definition LONG_MAX : Z := 2 ^ 63 - 1.
Definition LONG_MIN : Z := - 2 ^ 63.

(** [htons] on a little-endian host: the two bytes of a 16-bit value swap. *)
Definition htons (x : Z) : Z :=
  Z.lor (Z.shiftl (Z.land x 255) 8) (Z.land (Z.shiftr x 8) 255).
Definition ntohs (x : Z) : Z := htons x.

(** ** The outside world *)

Inductive epoll_events := EPOLLIN | EPOLLOUT.

(** What fills the [%s] of a diagnostic, if it has one: the text of
    [errno] or a string. *)
Inductive fmt_arg := no_arg | errno_arg (e : Z) | string_arg (s : string).

(** One constructor per external call the program makes, with the
    arguments that matter to an observer. *)
Inductive call :=
| c_socket
| c_inet_pton (src : string)
| c_connect (fd sin_port : Z)
| c_bind (fd sin_port : Z)
| c_listen (fd backlog : Z)
| c_epoll_create (size : Z)
| c_epoll_ctl_add (epfd fd : Z) (events : epoll_events)
| c_epoll_wait (epfd maxevents timeout : Z)
| c_write (fd : Z) (buf : list byte)
| c_read (fd count : Z)
| c_close (fd : Z)
| c_getline
| c_fwrite_stdout (buf : list byte) (size nmemb : Z)
| c_fprintf_stderr (fmt : string) (a : fmt_arg).

(** What a call gives back: its return value, the bytes it delivers
    ([read], [getline]) and the [errno] it leaves. *)
Record resp := mkResp { rv : Z; dat : list byte; err : Z }.

Definition event : Type := call * resp.

(** The environment chooses each answer from the history so far. *)
Definition environment : Type := list event -> call -> resp.

(** ** Process state: the three globals, and the trace *)

Record state := mkState {
  privex_sockfd : Z;
  privex_port : Z;
  privex_epollfd : Z;
  trace : list event
}.

(** The static initialisers of the source. *)
Definition initial_state : state := mkState (-1) (-1) (-1) [].

(** A function declared [int] either executes a [return] or reaches its
    closing brace with no value. *)
Inductive cret := Returned (v : Z) | NoValue.

(** How a run of [dump] or [main] ends: with an exit status, or by using
    the value of a call that returned none (undefined in C). *)
Inductive outcome := Exit (status : Z) | Undefined.

(** ** A state monad for the globals *)

Definition M (A : Type) : Type := state -> A * state.
Definition pure {A} (a : A) : M A := fun s => (a, s).
Definition bind {A B} (m : M A) (k : A -> M B) : M B :=
  fun s => let (a, s') := m s in k a s'.

Declare Scope prog_scope.
Delimit Scope prog_scope with prog.
Notation "x <- m ;; k" := (bind m (fun x => k))
  (at level 61, m at next level, right associativity) : prog_scope.
Notation "m ;; k" := (bind m (fun _ => k))
  (at level 61, right associativity) : prog_scope.
Open Scope prog_scope.

Definition get_sockfd : M Z := fun s => (privex_sockfd s, s).
Definition get_port : M Z := fun s => (privex_port s, s).
Definition get_epollfd : M Z := fun s => (privex_epollfd s, s).
Definition set_sockfd (v : Z) : M unit :=
  fun s => (tt, mkState v (privex_port s) (privex_epollfd s) (trace s)).
Definition set_port (v : Z) : M unit :=
  fun s => (tt, mkState (privex_sockfd s) v (privex_epollfd s) (trace s)).
Definition set_epollfd (v : Z) : M unit :=
  fun s => (tt, mkState (privex_sockfd s) (privex_port s) v (trace s)).

(** ** C library functions the program relies on *)

Definition ascii_code (c : ascii) : Z := Z.of_N (N_of_ascii c).

Definition tolower (c : ascii) : Z :=
  let n := ascii_code c in
  if (65 <=? n) && (n <=? 90) then n + 32 else n.

(** [strncasecmp]: at most [n] characters are compared, ignoring case;
    the end of either string, or a NUL character, stops the comparison. *)
Fixpoint strncasecmp (s1 s2 : string) (n : nat) {struct n} : Z :=
  match n with
  | O => 0
  | S n' =>
    match s1, s2 with
    | EmptyString, EmptyString => 0
    | EmptyString, String c2 _ => 0 - tolower c2
    | String c1 _, EmptyString => tolower c1
    | String c1 r1, String c2 r2 =>
      if tolower c1 =? tolower c2 then
        if tolower c1 =? 0 then 0 else strncasecmp r1 r2 n'
      else tolower c1 - tolower c2
    end
  end.

Definition isspace (c : ascii) : bool :=
  let n := ascii_code c in (n =? 32) || ((9 <=? n) && (n <=? 13)).
Definition isdigit (c : ascii) : bool :=
  let n := ascii_code c in (48 <=? n) && (n <=? 57).

Fixpoint skip_space (s : string) : string :=
  match s with
  | String c r => if isspace c then skip_space r else s
  | EmptyString => s
  end.

Fixpoint digits_value (acc : Z) (s : string) : Z :=
  match s with
  | String c r =>
    if isdigit c then digits_value (acc * 10 + (ascii_code c - 48)) r else acc
  | EmptyString => acc
  end.

Definition clamp_long (z : Z) : Z := Z.max LONG_MIN (Z.min LONG_MAX z).

(** The sign [strtol] finds after the blanks, and what follows it. *)
Definition is_negative (s : string) : bool :=
  match skip_space s with
  | String c _ => ascii_code c =? 45
  | EmptyString => false
  end.

Definition unsigned_part (s : string) : string :=
  match skip_space s with
  | String c r =>
    if (ascii_code c =? 45) || (ascii_code c =? 43) then r else String c r
  | EmptyString => EmptyString
  end.

(** [strtol] in base 10: blanks, an optional sign, then the longest run
    of digits; no digits give 0; the value saturates at the [long] range. *)
Definition strtol10 (s : string) : Z :=
  let v := digits_value 0 (unsigned_part s) in
  clamp_long (if is_negative s then - v else v).

(** [atoi(s)] is [(int) strtol(s, NULL, 10)]. *)
Definition atoi (s : string) : Z := to_int (strtol10 s).

(** [argv[i]]. *)
Definition arg (argv : list string) (i : nat) : string :=
  nth i argv EmptyString.

Section Program.

Variable env : environment.

(** An external call: ask the environment, log the event. *)
Definition sys (c : call) : M resp :=
  fun s =>
    let r := env (trace s) c in
    (r, mkState (privex_sockfd s) (privex_port s) (privex_epollfd s)
                (trace s ++ [(c, r)])).

Definition fprintf_stderr (fmt : string) (a : fmt_arg) : M unit :=
  _ <- sys (c_fprintf_stderr fmt a) ;; pure tt.

Definition close (fd : Z) : M unit :=
  _ <- sys (c_close fd) ;; pure tt.

(** [close(privex_sockfd); privex_sockfd = -1;] *)
Definition close_sockfd : M unit :=
  fd <- get_sockfd ;; close fd ;; set_sockfd (-1).

(** [close(privex_epollfd); privex_epollfd = -1;] *)
Definition close_epollfd : M unit :=
  fd <- get_epollfd ;; close fd ;; set_epollfd (-1).

(** ** [setup_privex_client] *)
Definition setup_privex_client : M Z :=
  r <- sys c_socket ;;
  set_sockfd (rv r) ;;
  if rv r <? 0 then
    fprintf_stderr "Privex Error : Could not create socket!\n" no_arg ;;
    pure EXIT_FAILURE
  else
    port <- get_port ;;
    let sin_port := htons (to_uint16 port) in
    r <- sys (c_inet_pton "127.0.0.1") ;;
    if rv r <=? 0 then
      fprintf_stderr "Privex Error : inet_pton error occured!\n" no_arg ;;
      close_sockfd ;;
      pure EXIT_FAILURE
    else
      fd <- get_sockfd ;;
      r <- sys (c_connect fd sin_port) ;;
      if rv r <? 0 then
        fprintf_stderr "Privex Error : Connect failed!\n" no_arg ;;
        close_sockfd ;;
        pure EXIT_FAILURE
      else
        fprintf_stderr "Privex Connection : Success!\n" no_arg ;;
        r <- sys (c_epoll_create 1) ;;
        set_epollfd (rv r) ;;
        if rv r <? 0 then
          fprintf_stderr
            "Privex Error : unable to start client: error in epoll_create: %s\n"
            (errno_arg (err r)) ;;
          close_sockfd ;;
          pure EXIT_FAILURE
        else
          epfd <- get_epollfd ;;
          fd <- get_sockfd ;;
          r <- sys (c_epoll_ctl_add epfd fd EPOLLOUT) ;;
          if rv r <? 0 then
            fprintf_stderr
              "Privex Error : unable to start client: error in epoll_ctl: %s\n"
              (errno_arg (err r)) ;;
            close_sockfd ;;
            close_epollfd ;;
            pure EXIT_FAILURE
          else
            fprintf_stderr "Privex Epoll : Success!\n" no_arg ;;
            pure EXIT_SUCCESS.

(** The guard shared by [tell_privex] and [echo_data]:
    [privex_sockfd < 0 || privex_epollfd < 0]. *)
Definition handle_missing (s : state) : bool :=
  (privex_sockfd s <? 0) || (privex_epollfd s <? 0).

(** ** [tell_privex]: the [while (remaining > 0)] loop *)
Fixpoint tell_privex_loop (fuel : nat) (sendBuff : list byte)
    (sendBuffLen remaining : Z) : M (option Z) :=
  match fuel with
  | O => pure None
  | S fuel' =>
    if remaining >? 0 then
      epfd <- get_epollfd ;;
      r <- sys (c_epoll_wait epfd 1 (-1)) ;;
      let nReadyFDs := rv r in
      if nReadyFDs =? -1 then
        fprintf_stderr "Privex Error : error in client epoll_wait: %s\n"
                       (errno_arg (err r)) ;;
        close_sockfd ;;
        close_epollfd ;;
        pure (Some EXIT_FAILURE)
      else if nReadyFDs >? 0 then
        fd <- get_sockfd ;;
        let off := Z.to_nat (to_size_t (sendBuffLen - remaining)) in
        w <- sys (c_write fd (firstn (Z.to_nat remaining) (skipn off sendBuff))) ;;
        let written := rv w in
        if written <? 0 then
          fprintf_stderr "Privex Error : Could not write to the socket: %s\n"
                         (errno_arg (err w)) ;;
          close_sockfd ;;
          close_epollfd ;;
          pure (Some EXIT_FAILURE)
        else
          tell_privex_loop fuel' sendBuff sendBuffLen
                           (to_size_t (remaining - to_size_t written))
      else
        tell_privex_loop fuel' sendBuff sendBuffLen remaining
    else
      pure (Some EXIT_SUCCESS)
  end.

Definition tell_privex (fuel : nat) (sendBuff : list byte) (sendBuffLen : Z)
    : M (option Z) :=
  fun s =>
    if handle_missing s then
      (r <- setup_privex_client ;;
       if negb (r =? EXIT_SUCCESS) then
         fprintf_stderr
           "Privex Error : Server not running or not on port expected!\n" no_arg ;;
         pure (Some EXIT_FAILURE)
       else
         tell_privex_loop fuel sendBuff sendBuffLen sendBuffLen) s
    else
      tell_privex_loop fuel sendBuff sendBuffLen sendBuffLen s.

(** ** [load]: the [getline] loop *)
Fixpoint load_loop (fuel : nat) (result : Z) : M (option Z) :=
  match fuel with
  | O => pure None
  | S fuel' =>
    if result =? EXIT_SUCCESS then
      g <- sys c_getline ;;
      let readlen := rv g in
      if negb (readlen =? -1) then
        r <- tell_privex fuel' (dat g) (to_size_t readlen) ;;
        match r with
        | Some result' => load_loop fuel' result'
        | None => pure None
        end
      else
        pure (Some result)
    else
      pure (Some result)
  end.

Definition load (fuel : nat) (port : Z) : M (option Z) :=
  set_port port ;;
  load_loop fuel EXIT_SUCCESS.

(** ** [setup_privex_server] *)
Definition setup_privex_server : M Z :=
  r <- sys c_socket ;;
  set_sockfd (rv r) ;;
  if rv r <? 0 then
    fprintf_stderr
      "Privex Error : unable to start server: error in socket: %s\n"
      (errno_arg (err r)) ;;
    pure EXIT_FAILURE
  else
    port <- get_port ;;
    let sin_port := htons (to_uint16 port) in
    fd <- get_sockfd ;;
    r <- sys (c_bind fd sin_port) ;;
    if rv r =? -1 then
      fprintf_stderr
        "Privex Error : unable to start server: error in bind: %s\n"
        (errno_arg (err r)) ;;
      close_sockfd ;;
      pure EXIT_FAILURE
    else
      fd <- get_sockfd ;;
      r <- sys (c_listen fd 100) ;;
      if rv r =? -1 then
        fprintf_stderr
          "Privex Error : unable to start server: error in listen: %s\n"
          (errno_arg (err r)) ;;
        close_sockfd ;;
        pure EXIT_FAILURE
      else
        r <- sys (c_epoll_create 1) ;;
        set_epollfd (rv r) ;;
        if rv r <? 0 then
          fprintf_stderr
            "Privex Error : unable to start server: error in epoll_create: %s\n"
            (errno_arg (err r)) ;;
          close_sockfd ;;
          pure EXIT_FAILURE
        else
          epfd <- get_epollfd ;;
          fd <- get_sockfd ;;
          r <- sys (c_epoll_ctl_add epfd fd EPOLLIN) ;;
          if rv r =? -1 then
            fprintf_stderr
              "Privex Error : unable to start server: error in epoll_ctl: %s\n"
              (errno_arg (err r)) ;;
            close_sockfd ;;
            close_epollfd ;;
            pure EXIT_FAILURE
          else
            pure EXIT_SUCCESS.

(** ** [echo_data] *)
Definition echo_data_body : M cret :=
  let buffLen := 8192 in
  fd <- get_sockfd ;;
  r <- sys (c_read fd buffLen) ;;
  let numRead := rv r in
  if numRead <? 0 then
    fprintf_stderr "Privex Error : Could not read from the socket: %s\n"
                   (errno_arg (err r)) ;;
    close_sockfd ;;
    close_epollfd ;;
    pure (Returned EXIT_FAILURE)
  else if numRead >? 0 then
    w <- sys (c_fwrite_stdout (firstn (Z.to_nat numRead) (dat r))
                              (to_size_t numRead) 1) ;;
    let numWritten := rv w in
    if negb (to_size_t numRead =? numWritten) then
      fprintf_stderr "Privex Error : Could not write to stdout: %s\n"
                     (errno_arg (err w)) ;;
      close_sockfd ;;
      close_epollfd ;;
      pure (Returned EXIT_FAILURE)
    else
      pure NoValue
  else
    pure NoValue.

Definition echo_data : M cret :=
  fun s =>
    if handle_missing s then
      (r <- setup_privex_server ;;
       if negb (r =? EXIT_SUCCESS) then
         fprintf_stderr
           "Privex Error : problem running or not on port expected!\n" no_arg ;;
         pure (Returned EXIT_FAILURE)
       else
         echo_data_body) s
    else
      echo_data_body s.

(** ** [dump]: the [while (1)] loop *)
Fixpoint dump_loop (fuel : nat) : M (option outcome) :=
  match fuel with
  | O => pure None
  | S fuel' =>
    epfd <- get_epollfd ;;
    r <- sys (c_epoll_wait epfd 1 (-1)) ;;
    let nReadyFDs := rv r in
    if nReadyFDs =? -1 then
      fprintf_stderr "Privex Error : error in client epoll_wait: %s\n"
                     (errno_arg (err r)) ;;
      pure (Some (Exit EXIT_FAILURE))
    else if nReadyFDs >? 0 then
      e <- echo_data ;;
      match e with
      | Returned v =>
        if negb (v =? EXIT_SUCCESS) then pure (Some (Exit EXIT_FAILURE))
        else dump_loop fuel'
      | NoValue => pure (Some Undefined)
      end
    else
      dump_loop fuel'
  end.

Definition dump (fuel : nat) (port : Z) : M (option outcome) :=
  set_port port ;;
  dump_loop fuel.

(** ** [main] *)
Definition usage_fmt : string :=
  "Privex Error : argv format error, expected: %s <'dump'|'load'> <privex_port>\n".

Definition main (fuel : nat) (argc : Z) (argv : list string)
    : M (option outcome) :=
  if (argc =? 3) && (strncasecmp (arg argv 1) "dump" 4 =? 0) then
    dump fuel (atoi (arg argv 2))
  else if (argc =? 3) && (strncasecmp (arg argv 1) "load" 4 =? 0) then
    r <- load fuel (atoi (arg argv 2)) ;;
    pure (option_map Exit r)
  else
    fprintf_stderr usage_fmt (string_arg (arg argv 0)) ;;
    pure (Some (Exit EXIT_FAILURE)).

End Program.

(** * Vocabulary of the properties *)

(** ** The handle invariant *)

(** Both halves of the connection handle are valid, or both are not. *)
Definition joint (s : state) : Prop :=
  (0 <= privex_sockfd s /\ 0 <= privex_epollfd s) \/
  (privex_sockfd s < 0 /\ privex_epollfd s < 0).

(** The states at which an operation is entered or left.  A run starts
    from the static initialisers; between two operations only the port
    assignment of [load] and [dump] and external calls happen; the two
    setup functions are entered only behind the guard of their caller. *)
Inductive observable (env : environment) : state -> Prop :=
| obs_initial : observable env initial_state
| obs_external s c :
    observable env s -> observable env (snd (sys env c s))
| obs_set_port s p :
    observable env s -> observable env (snd (set_port p s))
| obs_setup_client s :
    observable env s -> handle_missing s = true ->
    observable env (snd (setup_privex_client env s))
| obs_setup_server s :
    observable env s -> handle_missing s = true ->
    observable env (snd (setup_privex_server env s))
| obs_tell_privex s fuel sendBuff sendBuffLen :
    observable env s ->
    observable env (snd (tell_privex env fuel sendBuff sendBuffLen s))
| obs_echo_data s :
    observable env s -> observable env (snd (echo_data env s)).

(** ** What reached the socket *)

(** The bytes one event put on a socket: the accepted prefix of a
    successful [write]. *)
Definition accepted (e : event) : list byte :=
  match fst e with
  | c_write _ buf =>
    if rv (snd e) <? 0 then [] else firstn (Z.to_nat (rv (snd e))) buf
  | _ => []
  end.

Definition sent_bytes (t : list event) : list byte := flat_map accepted t.

Definition written_count (e : event) : Z :=
  match fst e with
  | c_write _ _ => Z.max 0 (rv (snd e))
  | _ => 0
  end.

Definition bytes_written (t : list event) : Z :=
  fold_right (fun e acc => written_count e + acc) 0 t.

Definition write_target (fd : Z) (e : event) : Prop :=
  match fst e with
  | c_write fd' _ => fd' = fd
  | _ => True
  end.

(** ** Contracts of the kernel *)

(** [write] never reports more bytes than it was given. *)
Definition write_contract (env : environment) : Prop :=
  forall h fd buf, rv (env h (c_write fd buf)) <= Z.of_nat (length buf).

(** Every [write] of a non-empty buffer fails or accepts at least one byte. *)
Definition write_progress (env : environment) : Prop :=
  forall h fd buf, buf <> [] -> rv (env h (c_write fd buf)) <> 0.

(** Waiting on a descriptor that is not open fails ([EBADF]). *)
Definition ebadf_contract (env : environment) : Prop :=
  forall h epfd m t, epfd < 0 -> rv (env h (c_epoll_wait epfd m t)) = -1.

(** A wait that reports neither an error nor a ready descriptor: the
    loops of [tell_privex] and [dump] go round without doing anything. *)
Definition is_idle_wait (e : event) : bool :=
  match fst e with
  | c_epoll_wait _ _ _ => negb (rv (snd e) =? -1) && negb (rv (snd e) >? 0)
  | _ => false
  end.

Definition idle_waits (h : list event) : nat :=
  length (filter is_idle_wait h).

(** At most [k] waits of a run are idle. *)
Definition idle_wakes_bounded (env : environment) (k : nat) : Prop :=
  forall h epfd m t,
    (k <= idle_waits h)%nat ->
    rv (env h (c_epoll_wait epfd m t)) = -1 \/
    0 < rv (env h (c_epoll_wait epfd m t)).

(** Every wait reports readiness and every write accepts nothing. *)
Definition stalling (env : environment) : Prop :=
  (forall h epfd m t, rv (env h (c_epoll_wait epfd m t)) = 1) /\
  (forall h fd buf, rv (env h (c_write fd buf)) = 0).

(** ** Classes of events *)

Definition is_getline (c : call) : bool :=
  match c with c_getline => true | _ => false end.

(** The port every endpoint of a run is given, and no usage message. *)
Definition uses_port (sin_port : Z) (e : event) : Prop :=
  match fst e with
  | c_connect _ p => p = sin_port
  | c_bind _ p => p = sin_port
  | c_fprintf_stderr fmt _ => fmt <> usage_fmt
  | _ => True
  end.

(** The calls [setup_privex_client] can make when the port is [port]. *)
Definition client_setup_call (port : Z) (c : call) : Prop :=
  match c with
  | c_socket | c_inet_pton _ | c_epoll_create _ | c_epoll_ctl_add _ _ _
  | c_close _ => True
  | c_connect _ p => p = htons (to_uint16 port)
  | c_fprintf_stderr fmt _ => fmt <> usage_fmt
  | _ => False
  end.

(** The calls [tell_privex] can make. *)
Definition send_call (port : Z) (c : call) : Prop :=
  match c with
  | c_epoll_wait _ _ _ | c_write _ _ => True
  | _ => client_setup_call port c
  end.

(** The calls [setup_privex_server] can make when the port is [port]. *)
Definition server_setup_call (port : Z) (c : call) : Prop :=
  match c with
  | c_socket | c_listen _ _ | c_epoll_create _ | c_epoll_ctl_add _ _ _
  | c_close _ => True
  | c_bind _ p => p = htons (to_uint16 port)
  | c_fprintf_stderr fmt _ => fmt <> usage_fmt
  | _ => False
  end.

(** The calls [echo_data] can make. *)
Definition receive_call (port : Z) (c : call) : Prop :=
  match c with
  | c_read _ _ | c_fwrite_stdout _ _ _ => True
  | _ => server_setup_call port c
  end.

(** The calls a run of [load] can make. *)
Definition load_call (port : Z) (c : call) : Prop :=
  match c with
  | c_getline => True
  | _ => send_call port c
  end.

(** The calls a run of [dump] can make. *)
Definition dump_call (port : Z) (c : call) : Prop :=
  match c with
  | c_epoll_wait _ _ _ => True
  | _ => receive_call port c
  end.

(** The last thing that happened is a call of [getline]. *)
Definition last_call_getline (h : list event) : Prop :=
  exists t g, h = t ++ [(c_getline, g)].

(** ** Mode tokens and port arguments *)

Fixpoint no_nul (p : string) : bool :=
  match p with
  | EmptyString => true
  | String a p' => negb (tolower a =? 0) && no_nul p'
  end.

Fixpoint starts_with_nocase (p s : string) : bool :=
  match p with
  | EmptyString => true
  | String a p' =>
    match s with
    | String b s' => (tolower b =? tolower a) && starts_with_nocase p' s'
    | EmptyString => false
    end
  end.

(** A port argument with no digit where [atoi] looks for one. *)
Definition non_numeric (s : string) : Prop :=
  match unsigned_part s with
  | String c _ => isdigit c = false
  | EmptyString => True
  end.

(** The values of one byte, for checking [htons] exhaustively. *)
Definition octets : list Z := map Z.of_nat (seq 0 256).

(** ** Sample environments *)

Definition count_calls (p : call -> bool) (h : list event) : nat :=
  length (filter (fun e => p (fst e)) h).

Definition is_write (c : call) : bool :=
  match c with c_write _ _ => true | _ => false end.

Definition EBADF : Z := 9.
Definition EIO : Z := 5.

(** A cooperative peer.  Descriptors 3 and 4 are handed out, the socket is
    always ready, a write accepts at most [chunk] bytes, standard input
    holds [lines] and then stops leaving [stop_errno], every read
    delivers [incoming], and standard output takes everything. *)
Definition env_peer (chunk : Z) (lines : list (list byte)) (stop_errno : Z)
    (incoming : list byte) : environment :=
  fun h c =>
    match c with
    | c_socket => mkResp 3 [] 0
    | c_inet_pton _ => mkResp 1 [] 0
    | c_epoll_create _ => mkResp 4 [] 0
    | c_epoll_wait epfd _ _ =>
      if epfd <? 0 then mkResp (-1) [] EBADF else mkResp 1 [] 0
    | c_write _ buf => mkResp (Z.min chunk (Z.of_nat (length buf))) [] 0
    | c_getline =>
      match nth_error lines (count_calls is_getline h) with
      | Some l => mkResp (Z.of_nat (length l)) l 0
      | None => mkResp (-1) [] stop_errno
      end
    | c_read _ _ => mkResp (Z.of_nat (length incoming)) incoming 0
    | c_fwrite_stdout _ _ nmemb => mkResp nmemb [] 0
    | _ => mkResp 0 [] 0
    end.

(** A peer whose socket takes one byte and then only wakes the client
    with a ready count of zero. *)
Definition env_spurious : environment :=
  fun h c =>
    match c with
    | c_epoll_wait _ _ _ =>
      if (count_calls is_write h =? 0)%nat then mkResp 1 [] 0
      else mkResp 0 [] 0
    | c_write _ buf => mkResp (Z.min 1 (Z.of_nat (length buf))) [] 0
    | _ => mkResp 0 [] 0
    end.

(** A peer whose socket is always ready and never takes a byte. *)
Definition env_stall : environment :=
  fun h c =>
    match c with
    | c_epoll_wait _ _ _ => mkResp 1 [] 0
    | _ => mkResp 0 [] 0
    end.

Definition bytes_of (s : string) : list byte := list_byte_of_string s.

(** The record of scenario A: [hello] and the line feed. *)
Definition hello_line : list byte := bytes_of "hello" ++ [x0a].

(** A handle as a successful setup leaves it. *)
Definition connected_state : state := mkState 3 9000 4 [].

(** ** Runs of [load] whose input stops before any send fails *)

(** The state after an external call [c] that was answered [r]. *)
Definition after (s : state) (c : call) (r : resp) : state :=
  mkState (privex_sockfd s) (privex_port s) (privex_epollfd s)
          (trace s ++ [(c, r)]).

(** [input_stops env fuel s s']: from the head of the [getline] loop in
    state [s], [getline] delivers some lines, each of which [tell_privex]
    sends with success, and then returns -1, leaving state [s'].  Nothing
    is asked of what that last call leaves in [errno] or in the buffer:
    the end of the input and a read error both count. *)
Inductive input_stops (env : environment) : nat -> state -> state -> Prop :=
| stops_now fuel s :
    rv (env (trace s) c_getline) = -1 ->
    input_stops env (S fuel) s (after s c_getline (env (trace s) c_getline))
| stops_later fuel s s2 s' :
    rv (env (trace s) c_getline) <> -1 ->
    tell_privex env fuel (dat (env (trace s) c_getline))
      (to_size_t (rv (env (trace s) c_getline)))
      (after s c_getline (env (trace s) c_getline))
    = (Some EXIT_SUCCESS, s2) ->
    input_stops env fuel s2 s' ->
    input_stops env (S fuel) s s'.

(** ** Runs that differ only in the port *)

(** An event with the port of a [connect] or [bind] blotted out. *)
Definition erase_call (c : call) : call :=
  match c with
  | c_connect fd _ => c_connect fd 0
  | c_bind fd _ => c_bind fd 0
  | _ => c
  end.

Definition erase_port (e : event) : event := (erase_call (fst e), snd e).

(** An environment whose answers do not depend on the port numbers it
    has been or is being given. *)
Definition port_blind (env : environment) : Prop :=
  forall h h' c c',
    map erase_port h = map erase_port h' -> erase_call c = erase_call c' ->
    env h c = env h' c'.

(** Two states with the same descriptors and the same history up to the
    ports: they may differ in [privex_port]. *)
Definition same_but_port (s1 s2 : state) : Prop :=
  privex_sockfd s1 = privex_sockfd s2 /\
  privex_epollfd s1 = privex_epollfd s2 /\
  map erase_port (trace s1) = map erase_port (trace s2).

(** Two computations that, run from states differing only in the port,
    give the same result and leave states differing only in the port. *)
Definition port_independent {A} (m1 m2 : M A) : Prop :=
  forall s1 s2,
    same_but_port s1 s2 ->
    fst (m1 s1) = fst (m2 s2) /\ same_but_port (snd (m1 s1)) (snd (m2 s2)).

(** ** Descriptors held by the process *)

Fixpoint remove_one (fd : Z) (l : list Z) : list Z :=
  match l with
  | [] => []
  | x :: r => if x =? fd then r else x :: remove_one fd r
  end.

(** The effect of one event on the descriptors the process holds: a
    successful [socket] or [epoll_create] adds one, [close] gives one
    back. *)
Definition track_fd (held : list Z) (e : event) : list Z :=
  match fst e with
  | c_socket | c_epoll_create _ =>
    if rv (snd e) <? 0 then held else rv (snd e) :: held
  | c_close fd => remove_one fd held
  | _ => held
  end.

Definition fds_open (t : list event) (held : list Z) : list Z :=
  fold_left track_fd t held.

(** The descriptors the globals account for. *)
Definition handle_fds (s : state) : list Z :=
  if handle_missing s then [] else [privex_epollfd s; privex_sockfd s].

(** ** Further classes of events and contracts *)

Definition is_socket (c : call) : bool :=
  match c with c_socket => true | _ => false end.

Definition is_read (c : call) : bool :=
  match c with c_read _ _ => true | _ => false end.

(** The calls that belong to setting a connection up. *)
Definition is_setup_call (c : call) : bool :=
  match c with
  | c_socket | c_inet_pton _ | c_connect _ _ | c_bind _ _ | c_listen _ _
  | c_epoll_create _ | c_epoll_ctl_add _ _ _ => true
  | _ => false
  end.

(** The two calls of the send loop proper. *)
Definition is_wait_or_write (c : call) : bool :=
  match c with
  | c_epoll_wait _ _ _ | c_write _ _ => true
  | _ => false
  end.

(** A diagnostic on the error stream that reports an error. *)
Definition is_error_msg (c : call) : bool :=
  match c with
  | c_fprintf_stderr fmt _ => String.prefix "Privex Error" fmt
  | _ => false
  end.

Definition reports_error (t : list event) : Prop :=
  Exists (fun e => is_error_msg (fst e) = true) t.

(** The bytes of the lines [getline] delivered. *)
Definition line_of (e : event) : list byte :=
  match fst e with
  | c_getline => if rv (snd e) =? -1 then [] else dat (snd e)
  | _ => []
  end.

Definition lines_read (t : list event) : list byte := flat_map line_of t.

(** [getline] returns -1 or the length of the line it delivers. *)
Definition getline_contract (env : environment) : Prop :=
  forall h,
    rv (env h c_getline) = -1 \/
    (rv (env h c_getline) = Z.of_nat (length (dat (env h c_getline))) /\
     Z.of_nat (length (dat (env h c_getline))) < SIZE_MOD).

(** Nobody listens: every [connect] is refused. *)
Definition refused (env : environment) : Prop :=
  forall h fd p, rv (env h (c_connect fd p)) < 0.

(** Every [write] of a trace comes directly after a readiness wait that
    reported a positive count. *)
Fixpoint ready_driven (t : list event) : Prop :=
  match t with
  | [] => True
  | e :: t' =>
    match fst e with
    | c_write _ _ => False
    | c_epoll_wait _ _ _ =>
      match t' with
      | e' :: t'' =>
        match fst e' with
        | c_write _ _ => 0 < rv (snd e) /\ ready_driven t''
        | _ => ready_driven t'
        end
      | [] => True
      end
    | _ => ready_driven t'
    end
  end.

Definition EPIPE : Z := 32.
Definition ECONNREFUSED : Z := 111.

(** The cooperative peer of [env_peer], except that it resets the
    connection after [n] writes. *)
Definition env_cut (n : nat) (lines : list (list byte)) : environment :=
  fun h c =>
    match c with
    | c_write _ buf =>
      if (count_calls is_write h <? n)%nat
      then mkResp (Z.min 2 (Z.of_nat (length buf))) [] 0
      else mkResp (-1) [] EPIPE
    | _ => env_peer 2 lines 0 [] h c
    end.

(** The cooperative peer of [env_peer], with nobody listening. *)
Definition env_refused (lines : list (list byte)) : environment :=
  fun h c =>
    match c with
    | c_connect _ _ => mkResp (-1) [] ECONNREFUSED
    | _ => env_peer 2 lines 0 [] h c
    end.

(** * Properties *)

(** ** Symbolic execution of the monadic code

    One external call at a time: the answer of the environment is named
    and the state it leaves is computed, so that the goal stays linear in
    the number of calls. *)

Ltac simpl_prog :=
  cbn [fst snd privex_sockfd privex_port privex_epollfd trace] in *.

Ltac unfold_prog :=
  unfold fprintf_stderr, close_sockfd, close_epollfd, close,
         get_sockfd, get_port, get_epollfd,
         set_sockfd, set_port, set_epollfd, bind, pure in *;
  simpl_prog.

Ltac step :=
  simpl_prog;
  match goal with
  | |- context [sys ?e ?c ?s0] =>
    let r := fresh "r" in
    let tr := eval cbn [trace] in (trace s0) in
    set (r := e tr c) in *;
    change (sys e c s0)
      with (r, mkState (privex_sockfd s0) (privex_port s0) (privex_epollfd s0)
                       (tr ++ [(c, r)]));
    let E := fresh "E" r in
    assert (E : r = e tr c) by reflexivity;
    clearbody r; simpl_prog
  end.

Ltac branch :=
  match goal with
  | |- context [if ?b then _ else _] => destruct b eqn:?; simpl_prog
  end.

Ltac run := unfold_prog; repeat first [ step | branch ].

Ltac flatten_trace :=
  repeat rewrite <- app_assoc; cbn [app].

(** ** The handle invariant *)

Section Invariant.

Variable env : environment.

Lemma setup_privex_client_joint (s : state) :
  privex_epollfd s < 0 -> joint (snd (setup_privex_client env s)).
Proof.
  intros Hep. unfold setup_privex_client, joint. run; lia.
Qed.

Lemma setup_privex_server_joint (s : state) :
  privex_epollfd s < 0 -> joint (snd (setup_privex_server env s)).
Proof.
  intros Hep. unfold setup_privex_server, joint. run; lia.
Qed.

Lemma handle_missing_joint (s : state) :
  joint s -> handle_missing s = true -> privex_epollfd s < 0.
Proof.
  unfold joint, handle_missing. intros [H | H] G; [ | lia ].
  apply orb_true_iff in G. lia.
Qed.

Lemma tell_privex_loop_joint fuel sendBuff sendBuffLen :
  forall remaining s,
    joint s ->
    joint (snd (tell_privex_loop env fuel sendBuff sendBuffLen remaining s)).
Proof.
  induction fuel as [ | fuel IH ]; intros remaining s J; cbn [tell_privex_loop].
  - exact J.
  - destruct (remaining >? 0); [ | exact J ].
    run; try (apply IH; exact J); right; cbn; lia.
Qed.

Lemma tell_privex_joint fuel sendBuff sendBuffLen (s : state) :
  joint s -> joint (snd (tell_privex env fuel sendBuff sendBuffLen s)).
Proof.
  intros J. unfold tell_privex.
  destruct (handle_missing s) eqn:G.
  - pose proof (setup_privex_client_joint s (handle_missing_joint s J G)) as J1.
    unfold bind at 1.
    destruct (setup_privex_client env s) as [r s1]. cbn [snd] in J1.
    destruct (negb (r =? EXIT_SUCCESS)).
    + run. exact J1.
    + apply tell_privex_loop_joint. exact J1.
  - apply tell_privex_loop_joint. exact J.
Qed.

Lemma echo_data_body_joint (s : state) :
  joint s -> joint (snd (echo_data_body env s)).
Proof.
  intros J. unfold echo_data_body.
  run; try exact J; right; cbn; lia.
Qed.

Lemma echo_data_joint (s : state) :
  joint s -> joint (snd (echo_data env s)).
Proof.
  intros J. unfold echo_data.
  destruct (handle_missing s) eqn:G.
  - pose proof (setup_privex_server_joint s (handle_missing_joint s J G)) as J1.
    unfold bind at 1.
    destruct (setup_privex_server env s) as [r s1]. cbn [snd] in J1.
    destruct (negb (r =? EXIT_SUCCESS)).
    + run. exact J1.
    + apply echo_data_body_joint. exact J1.
  - apply echo_data_body_joint. exact J.
Qed.

(** C2. At every point where [setup_privex_client], [setup_privex_server],
    [tell_privex] or [echo_data] is entered or left, the descriptor and the
    readiness handle are both valid (both at least 0) or both invalid (both
    negative): no success or failure path leaves exactly one of them valid. *)
Theorem handle_invariant (s : state) :
  observable env s -> joint s.
Proof.
  induction 1 as [ | s c _ IH | s p _ IH | s _ IH G | s _ IH G
                   | s fuel b l _ IH | s _ IH ].
  - right; cbn; lia.
  - exact IH.
  - exact IH.
  - apply setup_privex_client_joint, handle_missing_joint; assumption.
  - apply setup_privex_server_joint, handle_missing_joint; assumption.
  - apply tell_privex_joint; exact IH.
  - apply echo_data_joint; exact IH.
Qed.

End Invariant.

(** The state in which [tell_privex] returns after the first line was read
    is covered by the invariant. *)
Lemma handle_invariant_witness :
  joint (snd (tell_privex (env_peer 2 [] 0 []) 8 (bytes_of "hello") 5
           (snd (sys (env_peer 2 [] 0 []) c_getline initial_state)))).
Proof.
  apply (handle_invariant (env_peer 2 [] 0 [])).
  apply obs_tell_privex, obs_external, obs_initial.
Defined.

(** ** Traces of the two setup functions *)

Section Traces.

Variable env : environment.

Lemma setup_privex_client_trace (s : state) :
  privex_port (snd (setup_privex_client env s)) = privex_port s /\
  exists r t,
    trace (snd (setup_privex_client env s)) = trace s ++ (c_socket, r) :: t /\
    Forall (fun e => client_setup_call (privex_port s) (fst e)) t.
Proof.
  unfold setup_privex_client.
  run; (split; [ reflexivity | ]);
    flatten_trace; do 2 eexists; (split; [ reflexivity | ]);
    repeat constructor; cbn; discriminate.
Qed.

Lemma setup_privex_server_trace (s : state) :
  privex_port (snd (setup_privex_server env s)) = privex_port s /\
  exists r t,
    trace (snd (setup_privex_server env s)) = trace s ++ (c_socket, r) :: t /\
    Forall (fun e => server_setup_call (privex_port s) (fst e)) t.
Proof.
  unfold setup_privex_server.
  run; (split; [ reflexivity | ]);
    flatten_trace; do 2 eexists; (split; [ reflexivity | ]);
    repeat constructor; cbn; discriminate.
Qed.

End Traces.

(** ** What a successful send put on the socket *)

Lemma sent_bytes_app (a b : list event) :
  sent_bytes (a ++ b) = sent_bytes a ++ sent_bytes b.
Proof. apply flat_map_app. Qed.

Lemma bytes_written_app (a b : list event) :
  bytes_written (a ++ b) = bytes_written a + bytes_written b.
Proof.
  induction a as [ | e a IH ]; cbn [app bytes_written fold_right].
  - reflexivity.
  - fold (bytes_written (a ++ b)). fold (bytes_written a). lia.
Qed.

Lemma silent_events (t : list event) :
  Forall (fun e => is_write (fst e) = false) t ->
  sent_bytes t = [] /\ bytes_written t = 0 /\
  forall fd, Forall (write_target fd) t.
Proof.
  induction 1 as [ | [c r] t Hc _ (IH1 & IH2 & IH3) ].
  - repeat split; constructor.
  - cbn [fst] in Hc. repeat split.
    + cbn [sent_bytes flat_map]. fold (sent_bytes t). rewrite IH1.
      unfold accepted; cbn [fst]. destruct c; try discriminate; reflexivity.
    + cbn [bytes_written fold_right]. fold (bytes_written t). rewrite IH2.
      unfold written_count; cbn [fst]. destruct c; try discriminate; reflexivity.
    + intros fd. constructor; [ | apply IH3 ].
      unfold write_target; cbn [fst]. destruct c; try discriminate; exact I.
Qed.

Lemma client_setup_no_write port (t : list event) :
  Forall (fun e => client_setup_call port (fst e)) t ->
  Forall (fun e => is_write (fst e) = false) t.
Proof.
  apply Forall_impl. intros [c r]; cbn [fst].
  destruct c; cbn; intros H; solve [ reflexivity | contradiction ].
Qed.

Lemma failure_is_not_success {A} (s s' : A) :
  (Some EXIT_FAILURE, s) = (Some EXIT_SUCCESS, s') -> False.
Proof. intros H. apply (f_equal fst) in H. discriminate H. Qed.

Section Send.

Variable env : environment.
Hypothesis Hw : write_contract env.
Variable sendBuff : list byte.
Hypothesis Hlen : Z.of_nat (length sendBuff) < SIZE_MOD.

Lemma tell_privex_loop_sends fuel :
  forall remaining s s',
    0 <= remaining <= Z.of_nat (length sendBuff) ->
    tell_privex_loop env fuel sendBuff (Z.of_nat (length sendBuff)) remaining s
      = (Some EXIT_SUCCESS, s') ->
    privex_sockfd s' = privex_sockfd s /\
    exists t,
      trace s' = trace s ++ t /\
      sent_bytes t
        = skipn (Z.to_nat (Z.of_nat (length sendBuff) - remaining)) sendBuff /\
      bytes_written t = remaining /\
      Forall (write_target (privex_sockfd s)) t.
Proof.
  induction fuel as [ | fuel IH ]; intros remaining s s' Hr;
    cbn [tell_privex_loop].
  - unfold pure. discriminate.
  - destruct (remaining >? 0) eqn:G.
    + run.
      * intros H. destruct (failure_is_not_success _ _ H).
      * intros H. destruct (failure_is_not_success _ _ H).
      * assert (Hoff : to_size_t (Z.of_nat (length sendBuff) - remaining)
                       = Z.of_nat (length sendBuff) - remaining).
        { unfold to_size_t. apply Z.mod_small. lia. }
        rewrite Hoff in *.
        assert (Hwr : rv r0 <= remaining).
        { rewrite Er0. eapply Z.le_trans; [ apply Hw | ].
          pose proof (firstn_le_length (Z.to_nat remaining)
            (skipn (Z.to_nat (Z.of_nat (length sendBuff) - remaining)) sendBuff)).
          lia. }
        assert (H0 : 0 <= rv r0) by lia.
        assert (Hsz : to_size_t (remaining - to_size_t (rv r0))
                      = remaining - rv r0).
        { unfold to_size_t. rewrite (Z.mod_small (rv r0)) by lia.
          apply Z.mod_small. lia. }
        rewrite Hsz. intros H. apply IH in H; [ | lia ].
        destruct H as (Hs & t & Ht & Hsent & Hcnt & Htgt). simpl_prog.
        split; [ exact Hs | ].
        eexists (_ :: _ :: t). split; [ rewrite Ht; flatten_trace; reflexivity | ].
        split; [ | split ].
        -- cbn [sent_bytes flat_map]. fold (sent_bytes t). rewrite Hsent.
           unfold accepted; cbn [fst snd app]. rewrite Heqb1.
           rewrite firstn_firstn, Nat.min_l by lia.
           replace (Z.to_nat (Z.of_nat (length sendBuff) - (remaining - rv r0)))
             with (Z.to_nat (rv r0)
                   + Z.to_nat (Z.of_nat (length sendBuff) - remaining))%nat
             by lia.
           rewrite <- skipn_skipn. apply firstn_skipn.
        -- cbn [bytes_written fold_right]. fold (bytes_written t). rewrite Hcnt.
           unfold written_count; cbn [fst snd]. lia.
        -- repeat constructor; [ exact Htgt ].
      * intros H. apply IH in H; [ | lia ].
        destruct H as (Hs & t & Ht & Hsent & Hcnt & Htgt). simpl_prog.
        split; [ exact Hs | ].
        eexists (_ :: t). split; [ rewrite Ht; flatten_trace; reflexivity | ].
        split; [ exact Hsent | ]. split; [ exact Hcnt | ].
        constructor; [ exact I | exact Htgt ].
    + unfold pure. intros H. inversion H; subst s'.
      assert (remaining = 0) by lia. subst remaining.
      split; [ reflexivity | ]. exists []. rewrite app_nil_r, Z.sub_0_r, Nat2Z.id.
      split; [ reflexivity | ]. split; [ symmetry; apply skipn_all | ].
      split; [ reflexivity | constructor ].
Qed.

(** C1. When [tell_privex] returns success for a record, the bytes the
    socket accepted over all its partial writes are, concatenated in the
    order of the writes, exactly the record; their number is the record
    length; and every write went to the connected descriptor. *)
Theorem tell_privex_sends_record fuel (s s' : state) :
  tell_privex env fuel sendBuff (Z.of_nat (length sendBuff)) s
    = (Some EXIT_SUCCESS, s') ->
  exists t,
    trace s' = trace s ++ t /\
    sent_bytes t = sendBuff /\
    bytes_written t = Z.of_nat (length sendBuff) /\
    Forall (write_target (privex_sockfd s')) t.
Proof.
  unfold tell_privex. destruct (handle_missing s).
  - unfold bind at 1.
    destruct (setup_privex_client_trace env s) as (_ & r0 & t0 & Ht0 & Hc0).
    destruct (setup_privex_client env s) as [r s1]. cbn [snd] in Ht0.
    destruct (negb (r =? EXIT_SUCCESS)).
    + run. intros H. destruct (failure_is_not_success _ _ H).
    + intros H. apply tell_privex_loop_sends in H; [ | lia ].
      destruct H as (Hs & t & Ht & Hsent & Hcnt & Htgt).
      destruct (silent_events ((c_socket, r0) :: t0)) as (S1 & S2 & S3).
      { constructor; [ reflexivity | ].
        eapply client_setup_no_write; exact Hc0. }
      exists (((c_socket, r0) :: t0) ++ t).
      rewrite sent_bytes_app, bytes_written_app, S1, S2, Hsent, Hcnt.
      rewrite Z.sub_diag. cbn [Z.to_nat skipn].
      split; [ rewrite Ht, Ht0, <- app_assoc; reflexivity | ].
      split; [ reflexivity | ]. split; [ lia | ].
      apply Forall_app. split; [ apply S3 | rewrite Hs; exact Htgt ].
  - intros H. apply tell_privex_loop_sends in H; [ | lia ].
    destruct H as (Hs & t & Ht & Hsent & Hcnt & Htgt).
    exists t. rewrite Hsent, Hcnt, Z.sub_diag. cbn [Z.to_nat skipn].
    repeat split; try assumption. rewrite Hs; exact Htgt.
Qed.

End Send.

(** A record of six bytes that the socket takes two at a time. *)
Lemma tell_privex_sends_record_witness :
  exists t,
    trace (snd (tell_privex (env_peer 2 [] 0 []) 9 hello_line 6 initial_state))
      = trace initial_state ++ t /\
    sent_bytes t = hello_line /\
    bytes_written t = 6 /\
    Forall (write_target 3) t.
Proof.
  apply (tell_privex_sends_record (env_peer 2 [] 0 [])
           (fun h fd buf => Z.le_min_r 2 (Z.of_nat (length buf)))
           hello_line eq_refl 9 initial_state).
  vm_compute. reflexivity.
Defined.

(** ** Termination of the send loop *)

Lemma idle_waits_snoc (h : list event) (e : event) :
  idle_waits (h ++ [e])
  = (idle_waits h + (if is_idle_wait e then 1 else 0))%nat.
Proof.
  unfold idle_waits. rewrite filter_app, length_app. cbn [filter].
  destruct (is_idle_wait e); reflexivity.
Qed.

Section Termination.

Variable env : environment.
Variable sendBuff : list byte.
Hypothesis Hlen : Z.of_nat (length sendBuff) < SIZE_MOD.

Lemma pending_nonempty (remaining : Z) :
  0 < remaining <= Z.of_nat (length sendBuff) ->
  firstn (Z.to_nat remaining)
    (skipn (Z.to_nat (to_size_t (Z.of_nat (length sendBuff) - remaining)))
       sendBuff) <> [].
Proof.
  intros Hr E. apply (f_equal (@length byte)) in E.
  rewrite length_firstn, length_skipn in E. cbn [length] in E.
  unfold to_size_t in E. rewrite Z.mod_small in E by lia. lia.
Qed.

Lemma tell_privex_loop_terminates (k : nat) :
  idle_wakes_bounded env k -> write_contract env -> write_progress env ->
  forall fuel remaining s,
    0 <= remaining <= Z.of_nat (length sendBuff) ->
    ((k - idle_waits (trace s)) + Z.to_nat remaining < fuel)%nat ->
    exists r s',
      tell_privex_loop env fuel sendBuff (Z.of_nat (length sendBuff))
        remaining s = (Some r, s').
Proof.
  intros Hk Hw Hp.
  induction fuel as [ | fuel IH ]; intros remaining s Hr Hf;
    [ lia | cbn [tell_privex_loop] ].
  destruct (remaining >? 0) eqn:G; [ | unfold pure; eauto ].
  run; eauto.
  - assert (Hle : rv r0 <= remaining).
    { rewrite Er0. eapply Z.le_trans; [ apply Hw | ].
      pose proof (firstn_le_length (Z.to_nat remaining)
        (skipn (Z.to_nat (to_size_t (Z.of_nat (length sendBuff) - remaining)))
           sendBuff)).
      lia. }
    assert (Hnz : rv r0 <> 0).
    { rewrite Er0. apply Hp, pending_nonempty. lia. }
    assert (Hsz : to_size_t (remaining - to_size_t (rv r0))
                  = remaining - rv r0).
    { unfold to_size_t. rewrite (Z.mod_small (rv r0)) by lia.
      apply Z.mod_small. lia. }
    rewrite Hsz. apply IH; [ lia | ]. simpl_prog.
    rewrite !idle_waits_snoc. unfold is_idle_wait; cbn [fst snd].
    rewrite Heqb0, andb_false_r. lia.
  - apply IH; [ lia | ]. simpl_prog.
    rewrite idle_waits_snoc. unfold is_idle_wait; cbn [fst snd].
    rewrite Heqb, Heqb0. cbn [negb andb].
    destruct (Nat.le_gt_cases k (idle_waits (trace s))) as [Hge | Hlt]; [ | lia ].
    specialize (Hk (trace s) (privex_epollfd s) 1 (-1) Hge).
    rewrite <- Er in Hk. lia.
Qed.

Lemma tell_privex_loop_stalls :
  stalling env ->
  forall fuel remaining s,
    0 < remaining < SIZE_MOD ->
    fst (tell_privex_loop env fuel sendBuff (Z.of_nat (length sendBuff))
           remaining s) = None.
Proof.
  intros [Hwait Hwrite].
  induction fuel as [ | fuel IH ]; intros remaining s Hr;
    cbn [tell_privex_loop]; [ reflexivity | ].
  destruct (remaining >? 0) eqn:G; [ | lia ].
  unfold_prog. step. rewrite Er, Hwait. cbn [Z.eqb Z.gtb Z.compare].
  step. rewrite Er0, Hwrite. cbn [Z.ltb Z.compare].
  replace (to_size_t (remaining - to_size_t 0)) with remaining.
  - apply IH. exact Hr.
  - unfold to_size_t. rewrite Z.mod_0_l by discriminate.
    rewrite Z.sub_0_r, Z.mod_small by lia. reflexivity.
Qed.

End Termination.

Lemma tell_privex_terminates_aux (env : environment) (sendBuff : list byte)
    (k : nat) (s : state) :
  Z.of_nat (length sendBuff) < SIZE_MOD ->
  idle_wakes_bounded env k -> write_contract env -> write_progress env ->
  exists r s',
    tell_privex env (k + length sendBuff + 1) sendBuff
      (Z.of_nat (length sendBuff)) s = (Some r, s').
Proof.
  intros Hlen Hk Hw Hp. unfold tell_privex.
  destruct (handle_missing s).
  - unfold bind at 1. destruct (setup_privex_client env s) as [r s1].
    destruct (negb (r =? EXIT_SUCCESS)).
    + run. eauto.
    + apply (tell_privex_loop_terminates env sendBuff Hlen k Hk Hw Hp); lia.
  - apply (tell_privex_loop_terminates env sendBuff Hlen k Hk Hw Hp); lia.
Qed.

(** C9 (amended). For every record, the send loop of [tell_privex]
    terminates provided that at most [k] readiness waits are idle (come back
    with neither an error nor a positive count) and that every write made
    after a positive count fails or accepts at least one byte and no more
    than it was given: [k] plus the record length plus one rounds suffice.
    A write that accepts 0 bytes leaves the remaining count unchanged, so
    when every wait reports readiness and every write accepts nothing the
    loop never ends. *)
Theorem tell_privex_termination (env : environment) (sendBuff : list byte)
    (s : state) :
  Z.of_nat (length sendBuff) < SIZE_MOD ->
  (forall k : nat,
     idle_wakes_bounded env k -> write_contract env -> write_progress env ->
     exists r s',
       tell_privex env (k + length sendBuff + 1) sendBuff
         (Z.of_nat (length sendBuff)) s = (Some r, s')) /\
  (stalling env -> handle_missing s = false -> sendBuff <> [] ->
   forall fuel,
     fst (tell_privex env fuel sendBuff (Z.of_nat (length sendBuff)) s)
     = None).
Proof.
  intros Hlen. split.
  - intros k. apply tell_privex_terminates_aux. exact Hlen.
  - intros Hst Hh Hne fuel. unfold tell_privex. rewrite Hh.
    apply tell_privex_loop_stalls; [ exact Hst | ].
    destruct sendBuff; [ contradiction | cbn [length] in *; lia ].
Qed.

Lemma env_peer_progress chunk lines e incoming :
  0 < chunk -> write_progress (env_peer chunk lines e incoming).
Proof.
  intros Hc h fd [ | b buf ] Hne; [ contradiction | ].
  cbn [env_peer rv length]. lia.
Qed.

Lemma env_peer_never_idle chunk lines e incoming k :
  idle_wakes_bounded (env_peer chunk lines e incoming) k.
Proof.
  intros h epfd m t _. cbn [env_peer]. destruct (epfd <? 0); cbn; lia.
Qed.

Lemma env_stall_stalling : stalling env_stall.
Proof. split; reflexivity. Qed.

(** A peer that takes two bytes per write lets the six-byte record
    through; a peer that takes none keeps the client in the loop. *)
Lemma tell_privex_termination_witness :
  (exists r s',
     tell_privex (env_peer 2 [] 0 []) (0 + length hello_line + 1) hello_line
       (Z.of_nat (length hello_line)) initial_state = (Some r, s')) /\
  (forall fuel,
     fst (tell_privex env_stall fuel hello_line
            (Z.of_nat (length hello_line)) connected_state) = None).
Proof.
  split.
  - apply (proj1 (tell_privex_termination (env_peer 2 [] 0 []) hello_line
                    initial_state eq_refl) 0%nat).
    + apply env_peer_never_idle.
    + intros h fd buf. apply Z.le_min_r.
    + apply env_peer_progress. reflexivity.
  - apply (proj2 (tell_privex_termination env_stall hello_line
                    connected_state eq_refl)).
    + exact env_stall_stalling.
    + reflexivity.
    + discriminate.
Defined.

Lemma count_calls_snoc (p : call -> bool) (h : list event) (e : event) :
  count_calls p (h ++ [e])
  = (count_calls p h + (if p (fst e) then 1 else 0))%nat.
Proof.
  unfold count_calls. rewrite filter_app, length_app. cbn [filter].
  destruct (p (fst e)); reflexivity.
Qed.

Lemma env_spurious_idles fuel (sendBuff : list byte) (len : Z) :
  forall remaining s,
    0 < remaining ->
    count_calls is_write (trace s) <> 0%nat ->
    fst (tell_privex_loop env_spurious fuel sendBuff len remaining s) = None.
Proof.
  induction fuel as [ | fuel IH ]; intros remaining s Hr Hc;
    cbn [tell_privex_loop]; [ reflexivity | ].
  destruct (remaining >? 0) eqn:G; [ | lia ].
  unfold_prog. step. cbn [env_spurious] in Er.
  destruct (Nat.eqb_spec (count_calls is_write (trace s)) 0);
    [ contradiction | ].
  subst r. cbn [rv Z.eqb Z.gtb Z.compare].
  apply IH; [ exact Hr | ].
  simpl_prog. rewrite count_calls_snoc. cbn [fst is_write]. lia.
Qed.

(** C9, as stated, fails: the socket takes the first byte of a two-byte
    record, so every write made accepts at least one byte and never more
    than it was given, but every later wait comes back with a ready count
    of zero and the loop goes round for ever. *)
Lemma send_loop_spins_on_idle_wakes :
  write_contract env_spurious /\ write_progress env_spurious /\
  sent_bytes (trace (snd (tell_privex env_spurious 5 (bytes_of "ab") 2
                            connected_state))) = bytes_of "a" /\
  forall fuel,
    fst (tell_privex env_spurious fuel (bytes_of "ab") 2 connected_state)
    = None.
Proof.
  split; [ | split; [ | split ] ].
  - intros h fd buf. apply Z.le_min_r.
  - intros h fd [ | b buf ] Hne; [ contradiction | ].
    cbn [env_spurious rv length]. lia.
  - vm_compute. reflexivity.
  - intros [ | fuel ]; [ reflexivity | ].
    unfold tell_privex.
    change (handle_missing connected_state) with false. cbv iota.
    cbn [tell_privex_loop]. change (2 >? 0) with true. cbv iota.
    unfold_prog. step. vm_compute in Er. subst r. cbn [rv].
    change (1 =? -1) with false. change (1 >? 0) with true. cbv iota beta.
    step. vm_compute in Er. subst r. cbn [rv].
    change (1 <? 0) with false. cbv iota beta.
    change (to_size_t (2 - to_size_t 1)) with 1.
    apply env_spurious_idles; [ lia | ].
    simpl_prog. vm_compute. discriminate.
Qed.

(** ** The dump loop and [echo_data] *)

(** C3. Started with no handle, as [dump] always is, the first round of
    the dump loop waits on the invalid readiness handle before [echo_data]
    has had a chance to create the endpoint; the kernel refuses the wait,
    and the run fails on that account, with no socket having been asked for.
    The lazy creation that [echo_data] provides is never reached. *)
Theorem dump_fails_before_setup (env : environment) (fuel : nat) (port : Z)
    (s : state) :
  ebadf_contract env -> privex_epollfd s < 0 ->
  exists w m,
    dump env (S fuel) port s
    = (Some (Exit EXIT_FAILURE),
       mkState (privex_sockfd s) port (privex_epollfd s)
         (trace s ++
          [(c_epoll_wait (privex_epollfd s) 1 (-1), w);
           (c_fprintf_stderr "Privex Error : error in client epoll_wait: %s\n"
              (errno_arg (err w)), m)])).
Proof.
  intros Hb Hep. unfold dump. cbn [dump_loop]. unfold_prog.
  step.
  pose proof (Hb (trace s) (privex_epollfd s) 1 (-1) Hep) as Hrv.
  rewrite <- Er in Hrv. rewrite Hrv. change (-1 =? -1) with true. cbv iota beta.
  step. flatten_trace. eauto.
Qed.

Lemma env_peer_ebadf chunk lines e incoming :
  ebadf_contract (env_peer chunk lines e incoming).
Proof.
  intros h epfd m t Hneg. cbn [env_peer].
  destruct (Z.ltb_spec epfd 0); [ reflexivity | lia ].
Qed.

(** [dump 9000] from the static initialisers. *)
Lemma dump_fails_before_setup_witness :
  exists w m,
    dump (env_peer 2 [] 0 hello_line) 1 9000 initial_state
    = (Some (Exit EXIT_FAILURE),
       mkState (-1) 9000 (-1)
         ([] ++
          [(c_epoll_wait (-1) 1 (-1), w);
           (c_fprintf_stderr "Privex Error : error in client epoll_wait: %s\n"
              (errno_arg (err w)), m)])).
Proof.
  apply (dump_fails_before_setup (env_peer 2 [] 0 hello_line) 0 9000
           initial_state).
  - apply env_peer_ebadf.
  - reflexivity.
Defined.

(** C4. When the socket read delivers more than one byte and standard
    output takes all of them, [fwrite] reports the one item it was asked to
    write; [echo_data] compares that item count with the byte count, takes
    the complete write for a short one, tears the handle down and returns
    failure. *)
Theorem echo_data_rejects_full_write (env : environment) (s : state) :
  handle_missing s = false ->
  forall r w,
    r = env (trace s) (c_read (privex_sockfd s) 8192) ->
    w = env (trace s ++ [(c_read (privex_sockfd s) 8192, r)])
          (c_fwrite_stdout (firstn (Z.to_nat (rv r)) (dat r))
             (to_size_t (rv r)) 1) ->
    1 < rv r < SIZE_MOD ->
    rv w = 1 ->
    fst (echo_data env s) = Returned EXIT_FAILURE /\
    privex_sockfd (snd (echo_data env s)) = -1 /\
    privex_epollfd (snd (echo_data env s)) = -1.
Proof.
  intros Hh r w Hr Hw Hn Hfull. unfold echo_data. rewrite Hh.
  unfold echo_data_body. unfold_prog.
  step. subst r0.
  destruct (Z.ltb_spec (rv r) 0); [ lia | ].
  destruct (Z.gtb_spec (rv r) 0); [ | lia ]. cbv iota beta.
  step. subst r0. rewrite Hfull.
  assert (Hne : (to_size_t (rv r) =? 1) = false).
  { apply Z.eqb_neq. unfold to_size_t. rewrite Z.mod_small; lia. }
  rewrite Hne. cbn [negb]. cbv iota beta.
  repeat step. repeat split.
Qed.

(** Two bytes arrive and standard output takes both. *)
Lemma echo_data_rejects_full_write_witness :
  fst (echo_data (env_peer 2 [] 0 (bytes_of "hi")) connected_state)
    = Returned EXIT_FAILURE /\
  privex_sockfd (snd (echo_data (env_peer 2 [] 0 (bytes_of "hi"))
                        connected_state)) = -1 /\
  privex_epollfd (snd (echo_data (env_peer 2 [] 0 (bytes_of "hi"))
                         connected_state)) = -1.
Proof.
  apply (echo_data_rejects_full_write (env_peer 2 [] 0 (bytes_of "hi"))
           connected_state eq_refl _ _ eq_refl eq_refl).
  - vm_compute. split; reflexivity.
  - reflexivity.
Defined.

(** C5. A socket read of 0 bytes forwards nothing and leaves the handle as
    it was, but [echo_data] then runs into its closing brace: no [return]
    is executed and no status, success or other, reaches the dump loop,
    whose test of that missing value is undefined. *)
Theorem echo_data_empty_read_returns_nothing (env : environment) (fuel : nat)
    (s : state) :
  handle_missing s = false ->
  forall w r,
    w = env (trace s) (c_epoll_wait (privex_epollfd s) 1 (-1)) ->
    r = env (trace s ++ [(c_epoll_wait (privex_epollfd s) 1 (-1), w)])
          (c_read (privex_sockfd s) 8192) ->
    0 < rv w ->
    rv r = 0 ->
    let s1 := mkState (privex_sockfd s) (privex_port s) (privex_epollfd s)
                (trace s ++ [(c_epoll_wait (privex_epollfd s) 1 (-1), w)]) in
    let s2 := mkState (privex_sockfd s) (privex_port s) (privex_epollfd s)
                (trace s1 ++ [(c_read (privex_sockfd s) 8192, r)]) in
    echo_data env s1 = (NoValue, s2) /\
    dump_loop env (S fuel) s = (Some Undefined, s2).
Proof.
  intros Hh w r Hw Hr Hready Hzero s1 s2.
  assert (E : echo_data env s1 = (NoValue, s2)).
  { unfold echo_data. change (handle_missing s1) with (handle_missing s).
    rewrite Hh. unfold echo_data_body. unfold_prog.
    subst s1 s2. step. subst r0.
    rewrite Hzero. reflexivity. }
  split; [ exact E | ].
  cbn [dump_loop]. unfold_prog. step. subst r0.
  destruct (Z.eqb_spec (rv w) (-1)); [ lia | ].
  destruct (Z.gtb_spec (rv w) 0); [ | lia ]. cbv iota beta.
  fold s1. rewrite E. reflexivity.
Qed.

(** The socket is readable and the read finds nothing. *)
Lemma echo_data_empty_read_returns_nothing_witness :
  exists s1 s2,
    echo_data (env_peer 2 [] 0 []) s1 = (NoValue, s2) /\
    dump_loop (env_peer 2 [] 0 []) 1 connected_state = (Some Undefined, s2).
Proof.
  do 2 eexists.
  apply (echo_data_empty_read_returns_nothing (env_peer 2 [] 0 []) 0
           connected_state eq_refl _ _ eq_refl eq_refl);
    reflexivity.
Defined.

(** ** Traces of the send path *)

Section SendTraces.

Variable env : environment.

Lemma tell_privex_loop_trace fuel sendBuff sendBuffLen :
  forall remaining s,
    privex_port (snd (tell_privex_loop env fuel sendBuff sendBuffLen
                        remaining s)) = privex_port s /\
    exists t,
      trace (snd (tell_privex_loop env fuel sendBuff sendBuffLen remaining s))
        = trace s ++ t /\
      Forall (fun e => send_call (privex_port s) (fst e)) t /\
      forall r,
        fst (tell_privex_loop env fuel sendBuff sendBuffLen remaining s)
          = Some r ->
        r = EXIT_SUCCESS \/ (r = EXIT_FAILURE /\ t <> []).
Proof.
  induction fuel as [ | fuel IH ]; intros remaining s; cbn [tell_privex_loop].
  - unfold pure. split; [ reflexivity | ]. exists [].
    rewrite app_nil_r. repeat split; [ constructor | discriminate ].
  - destruct (remaining >? 0).
    + run.
      * split; [ reflexivity | ]. flatten_trace. eexists. split; [ reflexivity | ].
        split; [ repeat constructor; cbn; discriminate | ].
        intros r4 H. right. inversion H. split; [ reflexivity | discriminate ].
      * split; [ reflexivity | ]. flatten_trace. eexists. split; [ reflexivity | ].
        split; [ repeat constructor; cbn; discriminate | ].
        intros r5 H. right. inversion H. split; [ reflexivity | discriminate ].
      * match goal with
        | |- context [tell_privex_loop env fuel sendBuff sendBuffLen ?rem ?st] =>
          destruct (IH rem st) as (Hp & t & Ht & Hc & Hr)
        end.
        simpl_prog. split; [ exact Hp | ].
        eexists (_ :: _ :: t).
        split; [ rewrite Ht; flatten_trace; reflexivity | ].
        split; [ repeat constructor; exact Hc | ].
        intros r1 H. destruct (Hr r1 H) as [ | [? ?] ]; [ left | right ];
          [ assumption | split; [ assumption | discriminate ] ].
      * match goal with
        | |- context [tell_privex_loop env fuel sendBuff sendBuffLen ?rem ?st] =>
          destruct (IH rem st) as (Hp & t & Ht & Hc & Hr)
        end.
        simpl_prog. split; [ exact Hp | ].
        eexists (_ :: t).
        split; [ rewrite Ht; flatten_trace; reflexivity | ].
        split; [ repeat constructor; exact Hc | ].
        intros r1 H. destruct (Hr r1 H) as [ | [? ?] ]; [ left | right ];
          [ assumption | split; [ assumption | discriminate ] ].
    + unfold pure. split; [ reflexivity | ]. exists [].
      rewrite app_nil_r. split; [ reflexivity | ].
      split; [ constructor | ]. intros r H. left. inversion H. reflexivity.
Qed.

Lemma client_setup_is_send port (t : list event) :
  Forall (fun e => client_setup_call port (fst e)) t ->
  Forall (fun e => send_call port (fst e)) t.
Proof.
  apply Forall_impl. intros [c r]; cbn [fst]. destruct c; cbn; tauto.
Qed.

Lemma tell_privex_trace fuel sendBuff sendBuffLen (s : state) :
  privex_port (snd (tell_privex env fuel sendBuff sendBuffLen s))
    = privex_port s /\
  exists t,
    trace (snd (tell_privex env fuel sendBuff sendBuffLen s)) = trace s ++ t /\
    Forall (fun e => send_call (privex_port s) (fst e)) t /\
    (handle_missing s = true -> exists r t', t = (c_socket, r) :: t') /\
    forall r,
      fst (tell_privex env fuel sendBuff sendBuffLen s) = Some r ->
      r = EXIT_SUCCESS \/ (r = EXIT_FAILURE /\ t <> []).
Proof.
  unfold tell_privex. destruct (handle_missing s).
  - unfold bind.
    destruct (setup_privex_client_trace env s) as (Hp0 & r0 & t0 & Ht0 & Hc0).
    destruct (setup_privex_client env s) as [r s1]. cbn [snd] in Ht0, Hp0.
    apply client_setup_is_send in Hc0.
    destruct (negb (r =? EXIT_SUCCESS)).
    + run. split; [ exact Hp0 | ]. rewrite Ht0. flatten_trace.
      eexists. split; [ reflexivity | ].
      split; [ constructor; [ exact I | ]; apply Forall_app; split;
               [ exact Hc0 | repeat constructor; cbn; discriminate ] | ].
      split; [ eauto | ].
      intros r2 H. right. inversion H. split; [ reflexivity | discriminate ].
    + destruct (tell_privex_loop_trace fuel sendBuff sendBuffLen
                  sendBuffLen s1) as (Hp & t & Ht & Hc & Hr).
      split; [ congruence | ].
      exists (((c_socket, r0) :: t0) ++ t).
      split; [ rewrite Ht, Ht0, <- app_assoc; reflexivity | ].
      split; [ apply Forall_app; split;
               [ constructor; [ exact I | exact Hc0 ]
               | rewrite <- Hp0; exact Hc ] | ].
      split; [ cbn [app]; eauto | ].
      intros r1 H. destruct (Hr r1 H) as [ | [? ?] ]; [ left | right ];
        [ assumption | split; [ assumption | discriminate ] ].
  - destruct (tell_privex_loop_trace fuel sendBuff sendBuffLen
                sendBuffLen s) as (Hp & t & Ht & Hc & Hr).
    split; [ exact Hp | ]. exists t.
    repeat split; try assumption. discriminate.
Qed.

End SendTraces.

(** ** Traces of [load] *)

Lemma not_last_call_getline (h t : list event) (P : call -> Prop) :
  Forall (fun e => P (fst e)) t -> ~ P c_getline -> t <> [] ->
  ~ last_call_getline (h ++ t).
Proof.
  intros Hall Hng Hne (t' & g & E).
  destruct (exists_last Hne) as (t0 & e & ->).
  rewrite app_assoc in E. apply app_inj_tail in E. destruct E as [_ ->].
  apply Forall_app in Hall. destruct Hall as [_ Hall].
  inversion Hall; subst. cbn [fst] in *. contradiction.
Qed.

Section LoadTraces.

Variable env : environment.

Lemma send_is_load port (t : list event) :
  Forall (fun e => send_call port (fst e)) t ->
  Forall (fun e => load_call port (fst e)) t.
Proof.
  apply Forall_impl. intros [c r]; cbn [fst]. destruct c; cbn; tauto.
Qed.

Lemma load_loop_trace fuel :
  forall result s,
    privex_port (snd (load_loop env fuel result s)) = privex_port s /\
    exists t,
      trace (snd (load_loop env fuel result s)) = trace s ++ t /\
      Forall (fun e => load_call (privex_port s) (fst e)) t.
Proof.
  induction fuel as [ | fuel IH ]; intros result s; cbn [load_loop].
  - unfold pure. split; [ reflexivity | ]. exists [].
    rewrite app_nil_r. split; [ reflexivity | constructor ].
  - destruct (result =? EXIT_SUCCESS).
    + unfold_prog. step. destruct (negb (rv r =? -1)).
      * match goal with
        | |- context [tell_privex env fuel ?b ?l ?st] =>
          destruct (tell_privex_trace env fuel b l st)
            as (Hp & t & Ht & Hc & _ & _);
          destruct (tell_privex env fuel b l st) as [[result' | ] s2]
        end; simpl_prog.
        -- destruct (IH result' s2) as (Hp' & t' & Ht' & Hc').
           split; [ congruence | ]. exists ((c_getline, r) :: t ++ t').
           split; [ rewrite Ht', Ht; flatten_trace; reflexivity | ].
           constructor; [ exact I | ]. apply Forall_app. split.
           ++ apply send_is_load. exact Hc.
           ++ rewrite <- Hp. exact Hc'.
        -- split; [ exact Hp | ]. exists ((c_getline, r) :: t).
           split; [ rewrite Ht; flatten_trace; reflexivity | ].
           constructor; [ exact I | ]. apply send_is_load. exact Hc.
      * simpl_prog. split; [ reflexivity | ]. eexists.
        split; [ reflexivity | repeat constructor ].
    + unfold pure. split; [ reflexivity | ]. exists [].
      rewrite app_nil_r. split; [ reflexivity | constructor ].
Qed.

Lemma load_loop_stop fuel :
  forall result s r s',
    (result <> EXIT_SUCCESS -> ~ last_call_getline (trace s)) ->
    load_loop env fuel result s = (Some r, s') ->
    (last_call_getline (trace s') -> r = EXIT_SUCCESS) /\
    (r = EXIT_SUCCESS ->
     exists t g, trace s' = t ++ [(c_getline, g)] /\ rv g = -1).
Proof.
  induction fuel as [ | fuel IH ]; intros result s r s' Hpre;
    cbn [load_loop]; [ unfold pure; discriminate | ].
  destruct (Z.eqb_spec result EXIT_SUCCESS) as [-> | Hne].
  - unfold_prog. step. destruct (Z.eqb_spec (rv r0) (-1)) as [Hstop | Hline];
      cbn [negb].
    + intros H. inversion H; subst. cbn [trace]. split; [ reflexivity | eauto ].
    + match goal with
      | |- context [tell_privex env fuel ?b ?l ?st] =>
        destruct (tell_privex_trace env fuel b l st)
          as (_ & t & Ht & Hc & _ & Hr);
        destruct (tell_privex env fuel b l st) as [[result' | ] s2]
      end; simpl_prog; [ | discriminate ].
      apply IH. intros Hfail. rewrite Ht.
      destruct (Hr result' eq_refl) as [ | [_ Hnil] ]; [ contradiction | ].
      eapply not_last_call_getline; [ exact Hc | | exact Hnil ].
      cbn. tauto.
  - unfold pure. intros H. inversion H; subst.
    split; [ intros Hl; destruct (Hpre Hne Hl) | contradiction ].
Qed.

Lemma load_loop_started_ok fuel result (s s' : state) :
  load_loop env fuel result s = (Some EXIT_SUCCESS, s') ->
  result = EXIT_SUCCESS.
Proof.
  destruct fuel as [ | fuel ]; cbn [load_loop]; [ unfold pure; discriminate | ].
  destruct (Z.eqb_spec result EXIT_SUCCESS) as [-> | N]; [ reflexivity | ].
  unfold pure. intros H. inversion H. contradiction.
Qed.

Lemma input_stops_load_loop fuel (s s' : state) :
  input_stops env fuel s s' ->
  load_loop env fuel EXIT_SUCCESS s = (Some EXIT_SUCCESS, s').
Proof.
  induction 1 as [ fuel s Hstop | fuel s s2 s' Hline Hsend _ IH ];
    cbn [load_loop]; change (EXIT_SUCCESS =? EXIT_SUCCESS) with true; cbv iota;
    unfold_prog; step; subst r.
  - rewrite Hstop. reflexivity.
  - destruct (Z.eqb_spec (rv (env (trace s) c_getline)) (-1));
      [ contradiction | ]. cbn [negb].
    unfold after in Hsend. rewrite Hsend. exact IH.
Qed.

Lemma load_loop_input_stops fuel :
  forall s s',
    load_loop env fuel EXIT_SUCCESS s = (Some EXIT_SUCCESS, s') ->
    input_stops env fuel s s'.
Proof.
  induction fuel as [ | fuel IH ]; intros s s';
    cbn [load_loop]; [ unfold pure; discriminate | ].
  change (EXIT_SUCCESS =? EXIT_SUCCESS) with true. cbv iota.
  unfold_prog. step. subst r.
  destruct (Z.eqb_spec (rv (env (trace s) c_getline)) (-1)) as [Hstop | Hline];
    cbn [negb].
  - intros H. inversion H. apply stops_now. exact Hstop.
  - destruct (tell_privex env fuel (dat (env (trace s) c_getline))
                (to_size_t (rv (env (trace s) c_getline)))
                {| privex_sockfd := privex_sockfd s;
                   privex_port := privex_port s;
                   privex_epollfd := privex_epollfd s;
                   trace := trace s ++ [(c_getline, env (trace s) c_getline)] |})
      as [[result' | ] s2] eqn:Hsend; [ | discriminate ].
    intros H. pose proof (load_loop_started_ok _ _ _ _ H) as ->.
    eapply stops_later; [ exact Hline | exact Hsend | apply IH; exact H ].
Qed.

Lemma input_stops_last_call fuel (s s' : state) :
  input_stops env fuel s s' ->
  exists t g, trace s' = t ++ [(c_getline, g)] /\ rv g = -1.
Proof.
  induction 1 as [ fuel s Hstop | fuel s s2 s' _ _ _ IH ]; [ | exact IH ].
  unfold after. cbn [trace]. eauto.
Qed.

(** C10. [load] returns success whenever the input stops yielding records
    before any send has failed: if [getline] delivers lines that
    [tell_privex] sends with success and then returns -1, [load] returns
    [EXIT_SUCCESS], that call of [getline] being the last thing it does,
    whatever the call left in [errno] or in the stream: a read error on the
    input is not told from its normal end and gives success too.  These are
    the only runs that return success; and a run that returns at all after
    a last call of [getline] returns success. *)
Theorem load_success_when_input_stops fuel port (s s' : state) :
  (input_stops env fuel (snd (set_port port s)) s' ->
   load env fuel port s = (Some EXIT_SUCCESS, s') /\
   exists t g, trace s' = t ++ [(c_getline, g)] /\ rv g = -1) /\
  (load env fuel port s = (Some EXIT_SUCCESS, s') ->
   input_stops env fuel (snd (set_port port s)) s') /\
  (forall r, load env fuel port s = (Some r, s') ->
             last_call_getline (trace s') -> r = EXIT_SUCCESS).
Proof.
  unfold load. unfold_prog. split; [ | split ].
  - intros H. split; [ apply input_stops_load_loop; exact H | ].
    eapply input_stops_last_call; exact H.
  - apply load_loop_input_stops.
  - intros r H Hl. apply load_loop_stop in H; [ | contradiction ].
    apply (proj1 H). exact Hl.
Qed.

End LoadTraces.

(** One line is sent and the next read of standard input fails with
    [EIO]; the same with a plain end of input. *)
Lemma load_success_when_input_stops_witness :
  (fst (load (env_peer 2 [hello_line] EIO []) 9 9000 initial_state)
     = Some EXIT_SUCCESS /\
   exists t g,
     trace (snd (load (env_peer 2 [hello_line] EIO []) 9 9000 initial_state))
       = t ++ [(c_getline, g)] /\ rv g = -1 /\ err g = EIO) /\
  fst (load (env_peer 2 [hello_line] 0 []) 9 9000 initial_state)
    = Some EXIT_SUCCESS.
Proof.
  assert (Hrun : forall e,
    exists s',
      input_stops (env_peer 2 [hello_line] e []) 9
        (snd (set_port 9000 initial_state)) s' /\
      exists t, trace s' = t ++ [(c_getline, mkResp (-1) [] e)]).
  { intros e. eexists. split.
    - eapply stops_later;
        [ vm_compute; discriminate | vm_compute; reflexivity | ].
      apply stops_now. reflexivity.
    - unfold after. cbn [trace]. eexists. reflexivity. }
  split.
  - destruct (Hrun EIO) as (s' & Hstops & t & Ht).
    destruct (proj1 (load_success_when_input_stops
                       (env_peer 2 [hello_line] EIO []) 9 9000 initial_state s')
                Hstops) as (E & _).
    rewrite E. cbn [fst snd]. split; [ reflexivity | ].
    exists t, (mkResp (-1) [] EIO). split; [ exact Ht | split; reflexivity ].
  - destruct (Hrun 0) as (s' & Hstops & _).
    destruct (proj1 (load_success_when_input_stops
                       (env_peer 2 [hello_line] 0 []) 9 9000 initial_state s')
                Hstops) as (E & _).
    rewrite E. reflexivity.
Defined.

(** ** Lazy connection *)

(** C6. When standard input yields no record, [load] calls [getline] once
    and nothing else (no socket is created, nothing is connected or
    registered for readiness) and returns success.  When it does yield a
    record and there is no handle yet, the connection is set up then:
    the call of [socket] follows that [getline] directly. *)
Theorem load_connects_lazily (env : environment) (fuel : nat) (port : Z)
    (s : state) :
  (rv (env (trace s) c_getline) = -1 ->
   load env (S fuel) port s
   = (Some EXIT_SUCCESS,
      mkState (privex_sockfd s) port (privex_epollfd s)
        (trace s ++ [(c_getline, env (trace s) c_getline)]))) /\
  (rv (env (trace s) c_getline) <> -1 -> handle_missing s = true ->
   exists r t,
     trace (snd (load env (S fuel) port s))
     = trace s ++ (c_getline, env (trace s) c_getline) :: (c_socket, r) :: t).
Proof.
  unfold load. cbn [load_loop]. change (EXIT_SUCCESS =? EXIT_SUCCESS) with true.
  cbv iota. unfold_prog. split.
  - intros Hstop. step. subst r. rewrite Hstop. reflexivity.
  - intros Hline Hmiss. step. subst r.
    destruct (Z.eqb_spec (rv (env (trace s) c_getline)) (-1));
      [ contradiction | ]. cbn [negb].
    match goal with
    | |- context [tell_privex env fuel ?b ?l ?st] =>
      destruct (tell_privex_trace env fuel b l st)
        as (_ & t & Ht & _ & Hsock & _);
      destruct (tell_privex env fuel b l st) as [[result' | ] s2]
    end; simpl_prog;
      destruct (Hsock Hmiss) as (r & t' & ->).
    + destruct (load_loop_trace env fuel result' s2) as (_ & t2 & Ht2 & _).
      rewrite Ht2, Ht. flatten_trace. eauto.
    + rewrite Ht. flatten_trace. eauto.
Qed.

(** An empty standard input; and one holding a line. *)
Lemma load_connects_lazily_witness :
  load (env_peer 2 [] 0 []) 1 9000 initial_state
  = (Some EXIT_SUCCESS,
     mkState (-1) 9000 (-1) ([] ++ [(c_getline, mkResp (-1) [] 0)])) /\
  exists r t,
    trace (snd (load (env_peer 2 [hello_line] 0 []) 1 9000 initial_state))
    = [] ++ (c_getline, mkResp 6 hello_line 0) :: (c_socket, r) :: t.
Proof.
  split.
  - apply (proj1 (load_connects_lazily (env_peer 2 [] 0 []) 0 9000
                    initial_state)).
    reflexivity.
  - apply (proj2 (load_connects_lazily (env_peer 2 [hello_line] 0 []) 0 9000
                    initial_state)).
    + vm_compute. discriminate.
    + reflexivity.
Defined.

(** ** The command line *)

Lemma strncasecmp_prefix (p : string) :
  no_nul p = true ->
  forall s,
    (strncasecmp s p (String.length p) =? 0) = starts_with_nocase p s.
Proof.
  induction p as [ | a p IH ]; intros Hp s;
    cbn [String.length strncasecmp starts_with_nocase].
  - reflexivity.
  - cbn [no_nul] in Hp. apply andb_true_iff in Hp. destruct Hp as [Ha Hp].
    apply negb_true_iff, Z.eqb_neq in Ha.
    destruct s as [ | b s ].
    + apply Z.eqb_neq. lia.
    + destruct (Z.eqb_spec (tolower b) (tolower a)) as [E | N]; cbn [andb].
      * destruct (Z.eqb_spec (tolower b) 0); [ congruence | ].
        apply IH. exact Hp.
      * apply Z.eqb_neq. lia.
Qed.

Lemma mode_test (name s : string) :
  no_nul name = true -> String.length name = 4%nat ->
  (strncasecmp s name 4 =? 0) = starts_with_nocase name s.
Proof.
  intros Hn Hl. rewrite <- Hl. apply strncasecmp_prefix. exact Hn.
Qed.

(** C7 (amended). If the argument count is not 3, or the first four
    characters of the mode token are, ignoring case, neither [dump] nor
    [load], [main] writes the usage message to the error stream, makes no
    other call and returns the non-zero status [EXIT_FAILURE].  With three
    arguments, every token that starts with [dump] or with [load], in any
    mix of cases and whatever follows the fourth character, selects that
    mode. *)
Theorem main_usage (env : environment) (fuel : nat) (argc : Z)
    (argv : list string) (s : state) :
  (argc <> 3 \/
   (starts_with_nocase "dump" (arg argv 1) = false /\
    starts_with_nocase "load" (arg argv 1) = false) ->
   main env fuel argc argv s
   = (Some (Exit EXIT_FAILURE),
      mkState (privex_sockfd s) (privex_port s) (privex_epollfd s)
        (trace s ++
         [(c_fprintf_stderr usage_fmt (string_arg (arg argv 0)),
           env (trace s)
             (c_fprintf_stderr usage_fmt (string_arg (arg argv 0))))])) /\
   EXIT_FAILURE <> 0) /\
  (argc = 3 -> starts_with_nocase "dump" (arg argv 1) = true ->
   main env fuel argc argv s = dump env fuel (atoi (arg argv 2)) s) /\
  (argc = 3 -> starts_with_nocase "dump" (arg argv 1) = false ->
   starts_with_nocase "load" (arg argv 1) = true ->
   main env fuel argc argv s
   = (r <- load env fuel (atoi (arg argv 2)) ;; pure (option_map Exit r)) s).
Proof.
  unfold main.
  rewrite !(mode_test "dump" _ eq_refl eq_refl).
  rewrite !(mode_test "load" _ eq_refl eq_refl).
  split; [ | split ].
  - intros H. split; [ | discriminate ].
    assert (E : (argc =? 3) && starts_with_nocase "dump" (arg argv 1) = false
                /\ (argc =? 3) && starts_with_nocase "load" (arg argv 1) = false).
    { destruct H as [H | [H1 H2]].
      - apply Z.eqb_neq in H. rewrite H. split; reflexivity.
      - rewrite H1, H2, !andb_false_r. split; reflexivity. }
    destruct E as [-> ->]. unfold_prog. step. subst r. reflexivity.
  - intros -> ->. reflexivity.
  - intros -> -> ->. reflexivity.
Qed.

(** A token that is neither [dump] nor [load]; tokens in capitals and with
    a tail. *)
Lemma main_usage_witness :
  main (env_peer 2 [] 0 []) 1 3 ["privexctl"; "status"; "9000"]%string
    initial_state
  = (Some (Exit EXIT_FAILURE),
     mkState (-1) (-1) (-1)
       ([] ++ [(c_fprintf_stderr usage_fmt (string_arg "privexctl"),
                mkResp 0 [] 0)])) /\
  main (env_peer 2 [] 0 []) 1 3 ["privexctl"; "DUMPxyz"; "9000"]%string
    initial_state
  = dump (env_peer 2 [] 0 []) 1 (atoi "9000") initial_state /\
  main (env_peer 2 [] 0 []) 1 3 ["privexctl"; "LoAd"; "9000"]%string
    initial_state
  = (r <- load (env_peer 2 [] 0 []) 1 (atoi "9000") ;;
     pure (option_map Exit r)) initial_state.
Proof.
  split; [ | split ].
  - apply (proj1 (main_usage (env_peer 2 [] 0 []) 1 3
                    ["privexctl"; "status"; "9000"]%string initial_state)).
    right. split; reflexivity.
  - apply (proj1 (proj2 (main_usage (env_peer 2 [] 0 []) 1 3
                    ["privexctl"; "DUMPxyz"; "9000"]%string initial_state)));
      reflexivity.
  - apply (proj2 (proj2 (main_usage (env_peer 2 [] 0 []) 1 3
                    ["privexctl"; "LoAd"; "9000"]%string initial_state)));
      reflexivity.
Defined.

(** C7, as stated, fails: the token [loader] is neither [dump] nor
    [load], yet with it [main] runs [load]; on an empty standard input no
    usage message is written and the exit status is zero. *)
Lemma main_accepts_longer_token :
  arg ["privexctl"; "loader"; "9000"]%string 1 <> "dump"%string /\
  arg ["privexctl"; "loader"; "9000"]%string 1 <> "load"%string /\
  main (env_peer 2 [] 0 []) 1 3 ["privexctl"; "loader"; "9000"]%string
    initial_state
  = (Some (Exit EXIT_SUCCESS),
     mkState (-1) 9000 (-1) [(c_getline, mkResp (-1) [] 0)]).
Proof.
  split; [ discriminate | ]. split; [ discriminate | ].
  vm_compute. reflexivity.
Qed.

(** ** Traces of [dump] *)

Section DumpTraces.

Variable env : environment.

Lemma echo_data_body_trace (s : state) :
  privex_port (snd (echo_data_body env s)) = privex_port s /\
  exists t,
    trace (snd (echo_data_body env s)) = trace s ++ t /\
    Forall (fun e => receive_call (privex_port s) (fst e)) t.
Proof.
  unfold echo_data_body.
  run; (split; [ reflexivity | ]); flatten_trace; eexists;
    (split; [ reflexivity | ]); repeat constructor; cbn; discriminate.
Qed.

Lemma server_setup_is_receive port (t : list event) :
  Forall (fun e => server_setup_call port (fst e)) t ->
  Forall (fun e => receive_call port (fst e)) t.
Proof.
  apply Forall_impl. intros [c r]; cbn [fst]. destruct c; cbn; tauto.
Qed.

Lemma echo_data_trace (s : state) :
  privex_port (snd (echo_data env s)) = privex_port s /\
  exists t,
    trace (snd (echo_data env s)) = trace s ++ t /\
    Forall (fun e => receive_call (privex_port s) (fst e)) t.
Proof.
  unfold echo_data. destruct (handle_missing s).
  - unfold bind.
    destruct (setup_privex_server_trace env s) as (Hp0 & r0 & t0 & Ht0 & Hc0).
    destruct (setup_privex_server env s) as [r s1]. cbn [snd] in Ht0, Hp0.
    apply server_setup_is_receive in Hc0.
    destruct (negb (r =? EXIT_SUCCESS)).
    + run. split; [ exact Hp0 | ]. rewrite Ht0. flatten_trace.
      eexists. split; [ reflexivity | ].
      constructor; [ exact I | ]. apply Forall_app. split;
        [ exact Hc0 | repeat constructor; cbn; discriminate ].
    + destruct (echo_data_body_trace s1) as (Hp & t & Ht & Hc).
      split; [ congruence | ].
      exists (((c_socket, r0) :: t0) ++ t).
      split; [ rewrite Ht, Ht0, <- app_assoc; reflexivity | ].
      apply Forall_app. split;
        [ constructor; [ exact I | exact Hc0 ] | rewrite <- Hp0; exact Hc ].
  - apply echo_data_body_trace.
Qed.

Lemma receive_is_dump port (t : list event) :
  Forall (fun e => receive_call port (fst e)) t ->
  Forall (fun e => dump_call port (fst e)) t.
Proof.
  apply Forall_impl. intros [c r]; cbn [fst]. destruct c; cbn; tauto.
Qed.

Lemma dump_loop_trace fuel :
  forall s,
    privex_port (snd (dump_loop env fuel s)) = privex_port s /\
    exists t,
      trace (snd (dump_loop env fuel s)) = trace s ++ t /\
      Forall (fun e => dump_call (privex_port s) (fst e)) t.
Proof.
  induction fuel as [ | fuel IH ]; intros s; cbn [dump_loop].
  - unfold pure. split; [ reflexivity | ]. exists [].
    rewrite app_nil_r. split; [ reflexivity | constructor ].
  - unfold_prog. step. destruct (rv r =? -1).
    + step. split; [ reflexivity | ]. flatten_trace. eexists.
      split; [ reflexivity | ]. repeat constructor. cbn. discriminate.
    + destruct (rv r >? 0).
      * match goal with
        | |- context [echo_data env ?st] =>
          destruct (echo_data_trace st) as (Hp & t & Ht & Hc);
          destruct (echo_data env st) as [[v | ] s2]
        end; simpl_prog.
        -- destruct (negb (v =? EXIT_SUCCESS)); simpl_prog.
           ++ split; [ exact Hp | ]. exists ((c_epoll_wait (privex_epollfd s) 1 (-1), r) :: t).
              split; [ rewrite Ht; flatten_trace; reflexivity | ].
              constructor; [ exact I | ]. apply receive_is_dump. exact Hc.
           ++ destruct (IH s2) as (Hp' & t' & Ht' & Hc').
              split; [ congruence | ].
              exists ((c_epoll_wait (privex_epollfd s) 1 (-1), r) :: t ++ t').
              split; [ rewrite Ht', Ht; flatten_trace; reflexivity | ].
              constructor; [ exact I | ]. apply Forall_app. split.
              ** apply receive_is_dump. exact Hc.
              ** rewrite <- Hp. exact Hc'.
        -- split; [ exact Hp | ]. exists ((c_epoll_wait (privex_epollfd s) 1 (-1), r) :: t).
           split; [ rewrite Ht; flatten_trace; reflexivity | ].
           constructor; [ exact I | ]. apply receive_is_dump. exact Hc.
      * destruct (IH (mkState (privex_sockfd s) (privex_port s)
                        (privex_epollfd s)
                        (trace s ++ [(c_epoll_wait (privex_epollfd s) 1 (-1), r)])))
          as (Hp' & t' & Ht' & Hc').
        simpl_prog. split; [ exact Hp' | ].
        exists ((c_epoll_wait (privex_epollfd s) 1 (-1), r) :: t').
        split; [ rewrite Ht'; flatten_trace; reflexivity | ].
        constructor; [ exact I | exact Hc' ].
Qed.

End DumpTraces.

(** ** The port *)

Lemma load_call_uses_port port (t : list event) :
  Forall (fun e => load_call port (fst e)) t ->
  Forall (uses_port (htons (to_uint16 port))) t.
Proof.
  apply Forall_impl. intros [c r]. unfold uses_port; cbn [fst].
  destruct c; cbn; tauto.
Qed.

Lemma dump_call_uses_port port (t : list event) :
  Forall (fun e => dump_call port (fst e)) t ->
  Forall (uses_port (htons (to_uint16 port))) t.
Proof.
  apply Forall_impl. intros [c r]. unfold uses_port; cbn [fst].
  destruct c; cbn; tauto.
Qed.

Lemma In_octets (a : Z) : 0 <= a < 256 -> In a octets.
Proof.
  intros Ha. unfold octets. rewrite <- (Z2Nat.id a) by lia.
  apply in_map, in_seq. lia.
Qed.

Lemma ntohs_htons (x : Z) : 0 <= x < 2 ^ 16 -> ntohs (htons x) = x.
Proof.
  intros Hx. change (2 ^ 16) with 65536 in Hx.
  assert (H : forallb (fun a => forallb (fun b =>
                ntohs (htons (a * 256 + b)) =? a * 256 + b) octets) octets
              = true) by (vm_compute; reflexivity).
  assert (Hhi : 0 <= x / 256 < 256)
    by (split; [ apply Z.div_pos; lia | apply Z.div_lt_upper_bound; lia ]).
  rewrite forallb_forall in H.
  specialize (H (x / 256) (In_octets _ Hhi)).
  rewrite forallb_forall in H.
  specialize (H (x mod 256) (In_octets _ (Z.mod_pos_bound x 256 eq_refl))).
  apply Z.eqb_eq in H.
  replace (x / 256 * 256 + x mod 256) with x in H; [ exact H | ].
  rewrite (Z.div_mod x 256) at 1 by discriminate. lia.
Qed.

Lemma atoi_non_numeric (s : string) : non_numeric s -> atoi s = 0.
Proof.
  unfold non_numeric, atoi, strtol10.
  destruct (unsigned_part s) as [ | c r ]; cbn [digits_value]; intros H;
    [ | rewrite H ]; destruct (is_negative s); reflexivity.
Qed.

(** *** The port decides nothing *)

Section PortIndependence.

Variable env : environment.
Hypothesis Hblind : port_blind env.

Lemma pi_pure {A} (a : A) : port_independent (pure a) (pure a).
Proof. intros s1 s2 H. split; [ reflexivity | exact H ]. Qed.

Lemma pi_bind {A B} (m1 m2 : M A) (k1 k2 : A -> M B) :
  port_independent m1 m2 ->
  (forall a, port_independent (k1 a) (k2 a)) ->
  port_independent (bind m1 k1) (bind m2 k2).
Proof.
  intros Hm Hk s1 s2 H. unfold bind. destruct (Hm s1 s2 H) as [E H'].
  destruct (m1 s1) as [a1 s1'], (m2 s2) as [a2 s2']. cbn [fst snd] in *.
  subst a2. apply Hk. exact H'.
Qed.

Lemma pi_bind_get_port {B} (k1 k2 : Z -> M B) :
  (forall p1 p2, port_independent (k1 p1) (k2 p2)) ->
  port_independent (bind get_port k1) (bind get_port k2).
Proof. intros Hk s1 s2 H. unfold bind, get_port. apply Hk. exact H. Qed.

Lemma pi_sys (c1 c2 : call) :
  erase_call c1 = erase_call c2 -> port_independent (sys env c1) (sys env c2).
Proof.
  intros Hc s1 s2 (H1 & H2 & H3). unfold sys. cbn [fst snd].
  rewrite (Hblind (trace s1) (trace s2) c1 c2 H3 Hc).
  split; [ reflexivity | ]. repeat split; cbn [privex_sockfd privex_epollfd trace];
    try assumption.
  rewrite !map_app, H3. unfold erase_port at 2 4. cbn [map fst snd].
  rewrite Hc. reflexivity.
Qed.

Lemma pi_get_sockfd : port_independent get_sockfd get_sockfd.
Proof. intros s1 s2 H. split; [ exact (proj1 H) | exact H ]. Qed.

Lemma pi_get_epollfd : port_independent get_epollfd get_epollfd.
Proof. intros s1 s2 H. split; [ exact (proj1 (proj2 H)) | exact H ]. Qed.

Lemma pi_set_sockfd (v : Z) : port_independent (set_sockfd v) (set_sockfd v).
Proof.
  intros s1 s2 (H1 & H2 & H3). split; [ reflexivity | ].
  repeat split; assumption.
Qed.

Lemma pi_set_epollfd (v : Z) : port_independent (set_epollfd v) (set_epollfd v).
Proof.
  intros s1 s2 (H1 & H2 & H3). split; [ reflexivity | ].
  repeat split; assumption.
Qed.

Lemma pi_set_port (p1 p2 : Z) : port_independent (set_port p1) (set_port p2).
Proof.
  intros s1 s2 (H1 & H2 & H3). split; [ reflexivity | ].
  repeat split; assumption.
Qed.

Ltac pi :=
  repeat first
    [ apply pi_pure
    | apply pi_sys; reflexivity
    | apply pi_get_sockfd
    | apply pi_get_epollfd
    | apply pi_set_sockfd
    | apply pi_set_epollfd
    | apply pi_bind_get_port; intros ? ?; cbv zeta
    | apply pi_bind; [ | intros ? ]
    | match goal with
      | |- port_independent (if ?b then _ else _) (if ?b then _ else _) =>
        destruct b
      end ].

Lemma pi_setup_privex_client :
  port_independent (setup_privex_client env) (setup_privex_client env).
Proof.
  unfold setup_privex_client, fprintf_stderr, close_sockfd, close. pi.
Qed.

Lemma pi_setup_privex_server :
  port_independent (setup_privex_server env) (setup_privex_server env).
Proof.
  unfold setup_privex_server, fprintf_stderr, close_sockfd, close. pi.
Qed.

Lemma same_but_port_handle (s1 s2 : state) :
  same_but_port s1 s2 -> handle_missing s1 = handle_missing s2.
Proof.
  intros (H1 & H2 & _). unfold handle_missing. rewrite H1, H2. reflexivity.
Qed.

Lemma pi_tell_privex_loop fuel sendBuff sendBuffLen :
  forall remaining,
    port_independent (tell_privex_loop env fuel sendBuff sendBuffLen remaining)
                     (tell_privex_loop env fuel sendBuff sendBuffLen remaining).
Proof.
  induction fuel as [ | fuel IH ]; intros remaining; cbn [tell_privex_loop].
  - apply pi_pure.
  - unfold fprintf_stderr, close_sockfd, close. pi; apply IH.
Qed.

Lemma pi_tell_privex fuel sendBuff sendBuffLen :
  port_independent (tell_privex env fuel sendBuff sendBuffLen)
                   (tell_privex env fuel sendBuff sendBuffLen).
Proof.
  intros s1 s2 H. unfold tell_privex.
  rewrite (same_but_port_handle s1 s2 H). destruct (handle_missing s2).
  - revert s1 s2 H. fold (port_independent
      (r <- setup_privex_client env ;;
       if negb (r =? EXIT_SUCCESS) then
         fprintf_stderr env
           "Privex Error : Server not running or not on port expected!\n"
           no_arg ;;
         pure (Some EXIT_FAILURE)
       else tell_privex_loop env fuel sendBuff sendBuffLen sendBuffLen)
      (r <- setup_privex_client env ;;
       if negb (r =? EXIT_SUCCESS) then
         fprintf_stderr env
           "Privex Error : Server not running or not on port expected!\n"
           no_arg ;;
         pure (Some EXIT_FAILURE)
       else tell_privex_loop env fuel sendBuff sendBuffLen sendBuffLen)).
    apply pi_bind; [ apply pi_setup_privex_client | intros r ].
    destruct (negb (r =? EXIT_SUCCESS)).
    + unfold fprintf_stderr. pi.
    + apply pi_tell_privex_loop.
  - apply pi_tell_privex_loop. exact H.
Qed.

Lemma pi_load_loop fuel :
  forall result,
    port_independent (load_loop env fuel result) (load_loop env fuel result).
Proof.
  induction fuel as [ | fuel IH ]; intros result; cbn [load_loop].
  - apply pi_pure.
  - destruct (result =? EXIT_SUCCESS); [ | apply pi_pure ].
    apply pi_bind; [ apply pi_sys; reflexivity | intros g ].
    destruct (negb (rv g =? -1)); [ | apply pi_pure ].
    apply pi_bind; [ apply pi_tell_privex | intros [result' | ] ];
      [ apply IH | apply pi_pure ].
Qed.

Lemma pi_load fuel (p1 p2 : Z) :
  port_independent (load env fuel p1) (load env fuel p2).
Proof.
  unfold load. intros s1 s2 H. unfold bind.
  destruct (pi_set_port p1 p2 s1 s2 H) as [_ H'].
  destruct (set_port p1 s1) as [u1 s1'], (set_port p2 s2) as [u2 s2'].
  apply pi_load_loop. exact H'.
Qed.

Lemma pi_echo_data_body :
  port_independent (echo_data_body env) (echo_data_body env).
Proof.
  unfold echo_data_body, fprintf_stderr, close_sockfd, close. pi.
Qed.

Lemma pi_echo_data : port_independent (echo_data env) (echo_data env).
Proof.
  intros s1 s2 H. unfold echo_data.
  rewrite (same_but_port_handle s1 s2 H). destruct (handle_missing s2).
  - unfold bind. destruct (pi_setup_privex_server s1 s2 H) as [E H'].
    destruct (setup_privex_server env s1) as [r1 s1'],
             (setup_privex_server env s2) as [r2 s2'].
    cbn [fst snd] in *. subst r2.
    destruct (negb (r1 =? EXIT_SUCCESS)).
    + revert s1' s2' H'. fold (port_independent
        (bind (fprintf_stderr env
                 "Privex Error : problem running or not on port expected!\n"
                 no_arg)
              (fun _ => pure (Returned EXIT_FAILURE)))
        (bind (fprintf_stderr env
                 "Privex Error : problem running or not on port expected!\n"
                 no_arg)
              (fun _ => pure (Returned EXIT_FAILURE)))).
      unfold fprintf_stderr. pi.
    + apply pi_echo_data_body. exact H'.
  - apply pi_echo_data_body. exact H.
Qed.

Lemma pi_dump_loop fuel :
  port_independent (dump_loop env fuel) (dump_loop env fuel).
Proof.
  induction fuel as [ | fuel IH ]; cbn [dump_loop].
  - apply pi_pure.
  - apply pi_bind; [ apply pi_get_epollfd | intros epfd ].
    apply pi_bind; [ apply pi_sys; reflexivity | intros r ].
    destruct (rv r =? -1); [ unfold fprintf_stderr; pi | ].
    destruct (rv r >? 0); [ | exact IH ].
    apply pi_bind; [ apply pi_echo_data | intros [v | ] ]; [ | apply pi_pure ].
    destruct (negb (v =? EXIT_SUCCESS)); [ apply pi_pure | exact IH ].
Qed.

Lemma pi_dump fuel (p1 p2 : Z) :
  port_independent (dump env fuel p1) (dump env fuel p2).
Proof.
  unfold dump. intros s1 s2 H. unfold bind.
  destruct (pi_set_port p1 p2 s1 s2 H) as [_ H'].
  destruct (set_port p1 s1) as [u1 s1'], (set_port p2 s2) as [u2 s2'].
  apply pi_dump_loop. exact H'.
Qed.

Lemma pi_main fuel (argv argv' : list string) :
  arg argv' 1 = arg argv 1 ->
  starts_with_nocase "dump" (arg argv 1)
  || starts_with_nocase "load" (arg argv 1) = true ->
  port_independent (main env fuel 3 argv) (main env fuel 3 argv').
Proof.
  intros Hsame Hmode. unfold main. rewrite Hsame.
  rewrite !(mode_test "dump" _ eq_refl eq_refl).
  rewrite !(mode_test "load" _ eq_refl eq_refl).
  change (3 =? 3) with true. cbn [andb].
  destruct (starts_with_nocase "dump" (arg argv 1)).
  - apply pi_dump.
  - cbn [orb] in Hmode. rewrite Hmode.
    apply pi_bind; [ apply pi_load | intros r; apply pi_pure ].
Qed.

End PortIndependence.

(** *** The port reaches [connect] and [bind] *)

Lemma setup_privex_client_reaches_connect (env : environment) (s : state) :
  0 <= rv (env (trace s) c_socket) ->
  0 < rv (env (trace s ++ [(c_socket, env (trace s) c_socket)])
            (c_inet_pton "127.0.0.1")) ->
  exists r3 t,
    trace (snd (setup_privex_client env s))
    = trace s ++
      (c_socket, env (trace s) c_socket)
      :: (c_inet_pton "127.0.0.1",
          env (trace s ++ [(c_socket, env (trace s) c_socket)])
              (c_inet_pton "127.0.0.1"))
      :: (c_connect (rv (env (trace s) c_socket))
            (htons (to_uint16 (privex_port s))), r3)
      :: t.
Proof.
  intros H1 H2. unfold setup_privex_client.
  run; try lia; flatten_trace; do 2 eexists; reflexivity.
Qed.

Lemma tell_privex_reaches_connect (env : environment) fuel sendBuff sendBuffLen
    (s : state) :
  handle_missing s = true ->
  0 <= rv (env (trace s) c_socket) ->
  0 < rv (env (trace s ++ [(c_socket, env (trace s) c_socket)])
            (c_inet_pton "127.0.0.1")) ->
  exists r3 t,
    trace (snd (tell_privex env fuel sendBuff sendBuffLen s))
    = trace s ++
      (c_socket, env (trace s) c_socket)
      :: (c_inet_pton "127.0.0.1",
          env (trace s ++ [(c_socket, env (trace s) c_socket)])
              (c_inet_pton "127.0.0.1"))
      :: (c_connect (rv (env (trace s) c_socket))
            (htons (to_uint16 (privex_port s))), r3)
      :: t.
Proof.
  intros Hm H1 H2. unfold tell_privex. rewrite Hm. unfold bind.
  destruct (setup_privex_client_reaches_connect env s H1 H2) as (r3 & t0 & Ht0).
  destruct (setup_privex_client env s) as [r s1]. cbn [snd] in Ht0.
  destruct (negb (r =? EXIT_SUCCESS)).
  - run. rewrite Ht0. flatten_trace. eauto.
  - destruct (tell_privex_loop_trace env fuel sendBuff sendBuffLen
                sendBuffLen s1) as (_ & t & Ht & _).
    rewrite Ht, Ht0. flatten_trace. eauto.
Qed.

Lemma setup_privex_server_reaches_bind (env : environment) (s : state) :
  0 <= rv (env (trace s) c_socket) ->
  exists r2 t,
    trace (snd (setup_privex_server env s))
    = trace s ++
      (c_socket, env (trace s) c_socket)
      :: (c_bind (rv (env (trace s) c_socket))
            (htons (to_uint16 (privex_port s))), r2)
      :: t.
Proof.
  intros H1. unfold setup_privex_server.
  run; try lia; flatten_trace; do 2 eexists; reflexivity.
Qed.

Lemma echo_data_reaches_bind (env : environment) (s : state) :
  handle_missing s = true ->
  0 <= rv (env (trace s) c_socket) ->
  exists r2 t,
    trace (snd (echo_data env s))
    = trace s ++
      (c_socket, env (trace s) c_socket)
      :: (c_bind (rv (env (trace s) c_socket))
            (htons (to_uint16 (privex_port s))), r2)
      :: t.
Proof.
  intros Hm H1. unfold echo_data. rewrite Hm. unfold bind.
  destruct (setup_privex_server_reaches_bind env s H1) as (r2 & t0 & Ht0).
  destruct (setup_privex_server env s) as [r s1]. cbn [snd] in Ht0.
  destruct (negb (r =? EXIT_SUCCESS)).
  - run. rewrite Ht0. flatten_trace. eauto.
  - destruct (echo_data_body_trace env s1) as (_ & t & Ht & _).
    rewrite Ht, Ht0. flatten_trace. eauto.
Qed.

Lemma load_reaches_connect (env : environment) (fuel : nat) (port : Z)
    (s : state) (g r1 r2 : resp) :
  handle_missing s = true ->
  g = env (trace s) c_getline ->
  r1 = env (trace s ++ [(c_getline, g)]) c_socket ->
  r2 = env ((trace s ++ [(c_getline, g)]) ++ [(c_socket, r1)])
           (c_inet_pton "127.0.0.1") ->
  rv g <> -1 -> 0 <= rv r1 -> 0 < rv r2 ->
  exists r3 t,
    trace (snd (load env (S fuel) port s))
    = trace s ++
      (c_getline, g) :: (c_socket, r1) :: (c_inet_pton "127.0.0.1", r2)
      :: (c_connect (rv r1) (htons (to_uint16 port)), r3) :: t.
Proof.
  intros Hm -> -> -> Hline H1 H2. unfold load. cbn [load_loop].
  change (EXIT_SUCCESS =? EXIT_SUCCESS) with true. cbv iota. unfold_prog.
  step. subst r.
  destruct (Z.eqb_spec (rv (env (trace s) c_getline)) (-1));
    [ contradiction | ]. cbn [negb].
  match goal with
  | |- context [tell_privex env fuel ?b ?l ?st] =>
    destruct (tell_privex_reaches_connect env fuel b l st Hm H1 H2)
      as (r3 & t & Ht);
    destruct (tell_privex env fuel b l st) as [[result' | ] s2]
  end; simpl_prog.
  - destruct (load_loop_trace env fuel result' s2) as (_ & t2 & Ht2 & _).
    exists r3, (t ++ t2). rewrite Ht2, Ht. rewrite <- !app_assoc. reflexivity.
  - exists r3, t. rewrite Ht. rewrite <- !app_assoc. reflexivity.
Qed.

Lemma dump_reaches_bind (env : environment) (fuel : nat) (port : Z)
    (s : state) (w r1 : resp) :
  handle_missing s = true ->
  w = env (trace s) (c_epoll_wait (privex_epollfd s) 1 (-1)) ->
  r1 = env (trace s ++ [(c_epoll_wait (privex_epollfd s) 1 (-1), w)]) c_socket ->
  0 < rv w -> 0 <= rv r1 ->
  exists r2 t,
    trace (snd (dump env (S fuel) port s))
    = trace s ++
      (c_epoll_wait (privex_epollfd s) 1 (-1), w)
      :: (c_socket, r1) :: (c_bind (rv r1) (htons (to_uint16 port)), r2) :: t.
Proof.
  intros Hm -> -> Hw H1. unfold dump. cbn [dump_loop]. unfold_prog.
  step. subst r.
  destruct (Z.eqb_spec
              (rv (env (trace s) (c_epoll_wait (privex_epollfd s) 1 (-1))))
              (-1)); [ lia | ].
  destruct (Z.gtb_spec
              (rv (env (trace s) (c_epoll_wait (privex_epollfd s) 1 (-1))))
              0); [ | lia ].
  match goal with
  | |- context [echo_data env ?st] =>
    destruct (echo_data_reaches_bind env st Hm H1) as (r2 & t & Ht);
    destruct (echo_data env st) as [[v | ] s2]
  end; simpl_prog.
  - destruct (negb (v =? EXIT_SUCCESS)); simpl_prog.
    + exists r2, t. rewrite Ht. rewrite <- !app_assoc. reflexivity.
    + destruct (dump_loop_trace env fuel s2) as (_ & t2 & Ht2 & _).
      exists r2, (t ++ t2). rewrite Ht2, Ht. rewrite <- !app_assoc. reflexivity.
  - exists r2, t. rewrite Ht. rewrite <- !app_assoc. reflexivity.
Qed.

(** C8. The port argument goes through [atoi] into [privex_port] and
    from there, cut to 16 bits by the [uint16_t] cast and passed through
    [htons], into [connect] and [bind]: in load mode the first line read
    makes the client, once [socket] and [inet_pton] have succeeded, call
    [connect] with that port, and in dump mode a first readiness report
    makes the server, once [socket] has succeeded, call [bind] with it;
    every [connect] and [bind] of a run carries it.  Read back in host
    order the port on the wire is the [atoi] value modulo 2^16, and an
    argument without digits gives port 0.  Nothing in the run depends on
    the value: no usage message is written, and against an environment that
    does not look at port numbers two invocations that differ only in the
    port argument end with the same status after the same calls, the port
    fields of [connect] and [bind] apart. *)
Theorem main_port_unchecked (env : environment) (fuel : nat)
    (argv : list string) (s : state) :
  starts_with_nocase "dump" (arg argv 1)
  || starts_with_nocase "load" (arg argv 1) = true ->
  privex_port (snd (main env fuel 3 argv s)) = atoi (arg argv 2) /\
  (exists t,
     trace (snd (main env fuel 3 argv s)) = trace s ++ t /\
     Forall (uses_port (htons (to_uint16 (atoi (arg argv 2))))) t) /\
  (starts_with_nocase "dump" (arg argv 1) = false ->
   handle_missing s = true ->
   forall g r1 r2,
     g = env (trace s) c_getline ->
     r1 = env (trace s ++ [(c_getline, g)]) c_socket ->
     r2 = env ((trace s ++ [(c_getline, g)]) ++ [(c_socket, r1)])
              (c_inet_pton "127.0.0.1") ->
     rv g <> -1 -> 0 <= rv r1 -> 0 < rv r2 ->
     exists sin_port r3 t,
       trace (snd (main env (S fuel) 3 argv s))
       = trace s ++
         (c_getline, g) :: (c_socket, r1) :: (c_inet_pton "127.0.0.1", r2)
         :: (c_connect (rv r1) sin_port, r3) :: t /\
       sin_port = htons (to_uint16 (atoi (arg argv 2))) /\
       ntohs sin_port = atoi (arg argv 2) mod 2 ^ 16 /\
       (non_numeric (arg argv 2) -> sin_port = 0)) /\
  (starts_with_nocase "dump" (arg argv 1) = true ->
   handle_missing s = true ->
   forall w r1,
     w = env (trace s) (c_epoll_wait (privex_epollfd s) 1 (-1)) ->
     r1 = env (trace s ++ [(c_epoll_wait (privex_epollfd s) 1 (-1), w)])
              c_socket ->
     0 < rv w -> 0 <= rv r1 ->
     exists sin_port r2 t,
       trace (snd (main env (S fuel) 3 argv s))
       = trace s ++
         (c_epoll_wait (privex_epollfd s) 1 (-1), w) :: (c_socket, r1)
         :: (c_bind (rv r1) sin_port, r2) :: t /\
       sin_port = htons (to_uint16 (atoi (arg argv 2))) /\
       ntohs sin_port = atoi (arg argv 2) mod 2 ^ 16 /\
       (non_numeric (arg argv 2) -> sin_port = 0)) /\
  (port_blind env ->
   forall port_arg,
     fst (main env fuel 3 [arg argv 0; arg argv 1; port_arg] s)
     = fst (main env fuel 3 argv s) /\
     same_but_port
       (snd (main env fuel 3 [arg argv 0; arg argv 1; port_arg] s))
       (snd (main env fuel 3 argv s))).
Proof.
  intros Hmode.
  assert (Hwire : ntohs (htons (to_uint16 (atoi (arg argv 2))))
                  = atoi (arg argv 2) mod 2 ^ 16).
  { apply ntohs_htons. unfold to_uint16. apply Z.mod_pos_bound. reflexivity. }
  assert (Hzero : non_numeric (arg argv 2) ->
                  htons (to_uint16 (atoi (arg argv 2))) = 0).
  { intros Hn. rewrite (atoi_non_numeric _ Hn). reflexivity. }
  split; [ | split; [ | split; [ | split ] ] ].
  - unfold main.
    rewrite !(mode_test "dump" _ eq_refl eq_refl).
    rewrite !(mode_test "load" _ eq_refl eq_refl).
    change (3 =? 3) with true. cbn [andb].
    destruct (starts_with_nocase "dump" (arg argv 1)).
    + unfold dump. unfold_prog.
      match goal with
      | |- context [dump_loop env fuel ?st] =>
        destruct (dump_loop_trace env fuel st) as (Hp & _)
      end. exact Hp.
    + cbn [orb] in Hmode. rewrite Hmode. unfold load. unfold_prog.
      match goal with
      | |- context [load_loop env fuel ?r ?st] =>
        destruct (load_loop_trace env fuel r st) as (Hp & _);
        destruct (load_loop env fuel r st) as [o s1]
      end. exact Hp.
  - unfold main.
    rewrite !(mode_test "dump" _ eq_refl eq_refl).
    rewrite !(mode_test "load" _ eq_refl eq_refl).
    change (3 =? 3) with true. cbn [andb].
    destruct (starts_with_nocase "dump" (arg argv 1)).
    + unfold dump. unfold_prog.
      match goal with
      | |- context [dump_loop env fuel ?st] =>
        destruct (dump_loop_trace env fuel st) as (_ & t & Ht & Hc)
      end. exists t. split; [ exact Ht | ].
      apply dump_call_uses_port. exact Hc.
    + cbn [orb] in Hmode. rewrite Hmode. unfold load. unfold_prog.
      match goal with
      | |- context [load_loop env fuel ?r ?st] =>
        destruct (load_loop_trace env fuel r st) as (_ & t & Ht & Hc);
        destruct (load_loop env fuel r st) as [o s1]
      end. exists t. split; [ exact Ht | ].
      apply load_call_uses_port. exact Hc.
  - intros Hd Hm g r1 r2 Hg Hr1 Hr2 Hline H1 H2.
    rewrite Hd in Hmode. cbn [orb] in Hmode.
    destruct (load_reaches_connect env fuel (atoi (arg argv 2)) s g r1 r2
                Hm Hg Hr1 Hr2 Hline H1 H2) as (r3 & t & Ht).
    exists (htons (to_uint16 (atoi (arg argv 2)))), r3, t.
    split; [ | split; [ reflexivity | split; assumption ] ].
    unfold main.
    rewrite !(mode_test "dump" _ eq_refl eq_refl).
    rewrite !(mode_test "load" _ eq_refl eq_refl).
    rewrite Hd, Hmode. change (3 =? 3) with true. cbn [andb]. cbv iota.
    unfold bind at 1.
    destruct (load env (S fuel) (atoi (arg argv 2)) s) as [o s1].
    exact Ht.
  - intros Hd Hm w r1 Hw Hr1 Hready H1.
    destruct (dump_reaches_bind env fuel (atoi (arg argv 2)) s w r1
                Hm Hw Hr1 Hready H1) as (r2 & t & Ht).
    exists (htons (to_uint16 (atoi (arg argv 2)))), r2, t.
    split; [ | split; [ reflexivity | split; assumption ] ].
    unfold main.
    rewrite !(mode_test "dump" _ eq_refl eq_refl).
    rewrite Hd. change (3 =? 3) with true. cbn [andb]. cbv iota.
    exact Ht.
  - intros Hblind port_arg.
    assert (Hrefl : same_but_port s s) by (repeat split).
    destruct (pi_main env Hblind fuel argv [arg argv 0; arg argv 1; port_arg]
                eq_refl Hmode s s Hrefl) as [E H].
    split; [ symmetry; exact E | ].
    destruct H as (H1 & H2 & H3). repeat split; symmetry; assumption.
Qed.

Lemma count_getline_erased (h : list event) :
  count_calls is_getline (map erase_port h) = count_calls is_getline h.
Proof.
  unfold count_calls. induction h as [ | [c r] h IH ]; [ reflexivity | ].
  cbn [map filter erase_port fst snd].
  replace (is_getline (erase_call c)) with (is_getline c)
    by (destruct c; reflexivity).
  destruct (is_getline c); cbn [length]; rewrite IH; reflexivity.
Qed.

Lemma env_peer_port_blind chunk lines e incoming :
  port_blind (env_peer chunk lines e incoming).
Proof.
  intros h h' c c' Hh Hc.
  assert (Hn : count_calls is_getline h = count_calls is_getline h')
    by (rewrite <- (count_getline_erased h), Hh; apply count_getline_erased).
  destruct c, c'; cbn [erase_call] in Hc; try discriminate Hc;
    inversion Hc; subst; cbn [env_peer]; rewrite ?Hn; reflexivity.
Qed.

(** Load mode with the port argument [70000]: the client connects to port
    4464, and does the same things and ends the same way as with the
    argument [9000].  Dump mode with the argument [http]: the server binds
    port 0. *)
Lemma main_port_unchecked_witness :
  (exists sin_port r3 t,
     trace (snd (main (env_peer 2 [hello_line] 0 []) 9 3
                   ["privexctl"; "load"; "70000"]%string initial_state))
     = [] ++
       (c_getline, mkResp 6 hello_line 0) :: (c_socket, mkResp 3 [] 0)
       :: (c_inet_pton "127.0.0.1", mkResp 1 [] 0)
       :: (c_connect 3 sin_port, r3) :: t /\
     sin_port = htons (to_uint16 (atoi "70000")) /\
     ntohs sin_port = 70000 mod 2 ^ 16 /\
     (non_numeric "70000" -> sin_port = 0)) /\
  (fst (main (env_peer 2 [hello_line] 0 []) 9 3
          ["privexctl"; "load"; "9000"]%string initial_state)
   = fst (main (env_peer 2 [hello_line] 0 []) 9 3
            ["privexctl"; "load"; "70000"]%string initial_state) /\
   same_but_port
     (snd (main (env_peer 2 [hello_line] 0 []) 9 3
             ["privexctl"; "load"; "9000"]%string initial_state))
     (snd (main (env_peer 2 [hello_line] 0 []) 9 3
             ["privexctl"; "load"; "70000"]%string initial_state))) /\
  (exists sin_port r2 t,
     trace (snd (main env_stall 1 3
                   ["privexctl"; "dump"; "http"]%string initial_state))
     = [] ++
       (c_epoll_wait (-1) 1 (-1), mkResp 1 [] 0) :: (c_socket, mkResp 0 [] 0)
       :: (c_bind 0 sin_port, r2) :: t /\
     sin_port = htons (to_uint16 (atoi "http")) /\
     ntohs sin_port = atoi "http" mod 2 ^ 16 /\
     (non_numeric "http" -> sin_port = 0)).
Proof.
  split; [ | split ].
  - apply (proj1 (proj2 (proj2
             (main_port_unchecked (env_peer 2 [hello_line] 0 []) 8
                ["privexctl"; "load"; "70000"]%string initial_state eq_refl)))
             eq_refl eq_refl _ _ _ eq_refl eq_refl eq_refl).
    + vm_compute. discriminate.
    + vm_compute. discriminate.
    + reflexivity.
  - apply (proj2 (proj2 (proj2 (proj2
             (main_port_unchecked (env_peer 2 [hello_line] 0 []) 9
                ["privexctl"; "load"; "70000"]%string initial_state eq_refl))))
             (env_peer_port_blind 2 [hello_line] 0 []) "9000"%string).
  - apply (proj1 (proj2 (proj2 (proj2
             (main_port_unchecked env_stall 0
                ["privexctl"; "dump"; "http"]%string initial_state eq_refl))))
             eq_refl eq_refl _ _ eq_refl eq_refl).
    + reflexivity.
    + vm_compute. discriminate.
Defined.

(** * Further properties of the code *)

(** ** Outcome of the two setup functions *)

Lemma remove_pair (ep fd : Z) :
  remove_one ep (remove_one fd [ep; fd]) = [].
Proof.
  cbn [remove_one]. destruct (Z.eqb_spec ep fd) as [-> | N]; cbn [remove_one].
  - rewrite Z.eqb_refl. reflexivity.
  - rewrite !Z.eqb_refl. reflexivity.
Qed.

Ltac account :=
  unfold fds_open; cbn [fold_left track_fd fst snd];
  repeat match goal with
         | H : (_ <? _) = _ |- _ => rewrite H
         end;
  cbn [fold_left track_fd fst snd];
  rewrite ?remove_pair; cbn [remove_one]; rewrite ?Z.eqb_refl;
  try reflexivity.

(** X1. [setup_privex_client] either succeeds, having made exactly the
    calls socket, inet_pton of 127.0.0.1, connect, epoll_create and the
    registration of the socket for writability, and then the two globals
    are the descriptors those calls returned, both valid and both still
    open; or it returns failure with [privex_sockfd] negative and every
    descriptor it opened closed again. *)
Theorem setup_privex_client_outcome (env : environment) (s : state) :
  exists t,
    trace (snd (setup_privex_client env s)) = trace s ++ t /\
    ((fst (setup_privex_client env s) = EXIT_SUCCESS /\
      0 <= privex_sockfd (snd (setup_privex_client env s)) /\
      0 <= privex_epollfd (snd (setup_privex_client env s)) /\
      map fst t =
        [c_socket; c_inet_pton "127.0.0.1";
         c_connect (privex_sockfd (snd (setup_privex_client env s)))
           (htons (to_uint16 (privex_port s)));
         c_fprintf_stderr "Privex Connection : Success!\n" no_arg;
         c_epoll_create 1;
         c_epoll_ctl_add (privex_epollfd (snd (setup_privex_client env s)))
           (privex_sockfd (snd (setup_privex_client env s))) EPOLLOUT;
         c_fprintf_stderr "Privex Epoll : Success!\n" no_arg] /\
      fds_open t [] =
        [privex_epollfd (snd (setup_privex_client env s));
         privex_sockfd (snd (setup_privex_client env s))]) \/
     (fst (setup_privex_client env s) = EXIT_FAILURE /\
      privex_sockfd (snd (setup_privex_client env s)) < 0 /\
      fds_open t [] = [])).
Proof.
  unfold setup_privex_client.
  run; flatten_trace; eexists; (split; [ reflexivity | ]);
    first [ right; split; [ reflexivity | ]; split; [ lia | account ]
          | left; split; [ reflexivity | ];
            split; [ lia | ]; split; [ lia | ];
            split; [ reflexivity | account ] ].
Qed.

(** X2. [setup_privex_server] either succeeds, having made exactly the
    calls socket, bind to the port, listen with a backlog of 100,
    epoll_create and the registration of the listening socket for
    readability, and then the two globals are the descriptors those calls
    returned, both valid and both still open; or it returns failure with
    [privex_sockfd] negative and every descriptor it opened closed again. *)
Theorem setup_privex_server_outcome (env : environment) (s : state) :
  exists t,
    trace (snd (setup_privex_server env s)) = trace s ++ t /\
    ((fst (setup_privex_server env s) = EXIT_SUCCESS /\
      0 <= privex_sockfd (snd (setup_privex_server env s)) /\
      0 <= privex_epollfd (snd (setup_privex_server env s)) /\
      map fst t =
        [c_socket;
         c_bind (privex_sockfd (snd (setup_privex_server env s)))
           (htons (to_uint16 (privex_port s)));
         c_listen (privex_sockfd (snd (setup_privex_server env s))) 100;
         c_epoll_create 1;
         c_epoll_ctl_add (privex_epollfd (snd (setup_privex_server env s)))
           (privex_sockfd (snd (setup_privex_server env s))) EPOLLIN] /\
      fds_open t [] =
        [privex_epollfd (snd (setup_privex_server env s));
         privex_sockfd (snd (setup_privex_server env s))]) \/
     (fst (setup_privex_server env s) = EXIT_FAILURE /\
      privex_sockfd (snd (setup_privex_server env s)) < 0 /\
      fds_open t [] = [])).
Proof.
  unfold setup_privex_server.
  run; flatten_trace; eexists; (split; [ reflexivity | ]);
    first [ right; split; [ reflexivity | ]; split; [ lia | account ]
          | left; split; [ reflexivity | ];
            split; [ lia | ]; split; [ lia | ];
            split; [ reflexivity | account ] ].
Qed.

(** ** What the send loop does to the handle *)

Lemma ready_driven_idle (e : event) (t : list event) :
  (forall fd buf, fst e <> c_write fd buf) ->
  ready_driven t -> ready_driven (e :: t).
Proof.
  intros He Ht. cbn [ready_driven].
  destruct (fst e) eqn:E; try exact Ht.
  - destruct t as [ | e' t'' ]; [ exact I | ].
    destruct (fst e') eqn:E'; try exact Ht.
    cbn [ready_driven] in Ht. rewrite E' in Ht. contradiction.
  - destruct (He fd buf eq_refl).
Qed.

Lemma tell_privex_loop_accounts (env : environment) fuel sendBuff sendBuffLen :
  forall remaining s,
    exists t,
      trace (snd (tell_privex_loop env fuel sendBuff sendBuffLen remaining s))
        = trace s ++ t /\
      Forall (fun e => is_setup_call (fst e) = false) t /\
      ready_driven t /\
      ((fst (tell_privex_loop env fuel sendBuff sendBuffLen remaining s)
          = Some EXIT_FAILURE /\
        privex_sockfd (snd (tell_privex_loop env fuel sendBuff sendBuffLen
                              remaining s)) = -1 /\
        privex_epollfd (snd (tell_privex_loop env fuel sendBuff sendBuffLen
                               remaining s)) = -1 /\
        forall held,
          fds_open t held
          = remove_one (privex_epollfd s) (remove_one (privex_sockfd s) held)) \/
       (fst (tell_privex_loop env fuel sendBuff sendBuffLen remaining s)
          <> Some EXIT_FAILURE /\
        privex_sockfd (snd (tell_privex_loop env fuel sendBuff sendBuffLen
                              remaining s)) = privex_sockfd s /\
        privex_epollfd (snd (tell_privex_loop env fuel sendBuff sendBuffLen
                               remaining s)) = privex_epollfd s /\
        forall held, fds_open t held = held)).
Proof.
  induction fuel as [ | fuel IH ]; intros remaining s; cbn [tell_privex_loop].
  - unfold pure. exists []. rewrite app_nil_r.
    split; [ reflexivity | ]. split; [ constructor | ]. split; [ exact I | ].
    right. repeat split. discriminate.
  - destruct (remaining >? 0).
    + run.
      * flatten_trace. eexists. split; [ reflexivity | ].
        split; [ repeat constructor | ]. split; [ exact I | ].
        left. repeat split.
      * flatten_trace. eexists. split; [ reflexivity | ].
        split; [ repeat constructor | ].
        split; [ cbn; split; [ lia | exact I ] | ].
        left. repeat split.
      * match goal with
        | |- context [tell_privex_loop env fuel sendBuff sendBuffLen ?rem ?st] =>
          destruct (IH rem st) as (t & Ht & Hc & Hd & Hcase)
        end. simpl_prog.
        eexists (_ :: _ :: t).
        split; [ rewrite Ht; flatten_trace; reflexivity | ].
        split; [ repeat constructor; exact Hc | ].
        split; [ cbn; split; [ lia | exact Hd ] | ].
        destruct Hcase as [(H1 & H2 & H3 & H4) | (H1 & H2 & H3 & H4)];
          [ left | right ]; repeat split; try assumption;
          intros held; apply (H4 held).
      * match goal with
        | |- context [tell_privex_loop env fuel sendBuff sendBuffLen ?rem ?st] =>
          destruct (IH rem st) as (t & Ht & Hc & Hd & Hcase)
        end. simpl_prog.
        eexists (_ :: t).
        split; [ rewrite Ht; flatten_trace; reflexivity | ].
        split; [ repeat constructor; exact Hc | ].
        split; [ apply ready_driven_idle; [ discriminate | exact Hd ] | ].
        destruct Hcase as [(H1 & H2 & H3 & H4) | (H1 & H2 & H3 & H4)];
          [ left | right ]; repeat split; try assumption;
          intros held; apply (H4 held).
    + unfold pure. exists []. rewrite app_nil_r.
      split; [ reflexivity | ]. split; [ constructor | ]. split; [ exact I | ].
    right. repeat split. discriminate.
Qed.

Lemma count_calls_app (p : call -> bool) (a b : list event) :
  count_calls p (a ++ b) = (count_calls p a + count_calls p b)%nat.
Proof. unfold count_calls. rewrite filter_app, length_app. reflexivity. Qed.

Lemma count_calls_none (p q : call -> bool) (t : list event) :
  (forall c, q c = false -> p c = false) ->
  Forall (fun e => q (fst e) = false) t -> count_calls p t = 0%nat.
Proof.
  intros Hpq. induction 1 as [ | e t He _ IH ]; [ reflexivity | ].
  unfold count_calls in *. cbn [filter]. rewrite (Hpq _ He). exact IH.
Qed.

Lemma fds_open_app (a b : list event) (held : list Z) :
  fds_open (a ++ b) held = fds_open b (fds_open a held).
Proof. apply fold_left_app. Qed.

Lemma ready_driven_app (a b : list event) :
  Forall (fun e => is_wait_or_write (fst e) = false) a ->
  ready_driven b -> ready_driven (a ++ b).
Proof.
  intros Ha Hb. induction Ha as [ | e a He _ IH ]; [ exact Hb | ].
  cbn [app]. destruct e as [c r]; cbn [fst] in He.
  destruct c; try discriminate He;
    (apply ready_driven_idle; [ discriminate | exact IH ]).
Qed.

(** What [setup_privex_client] leaves behind: one call of [socket] in
    front, no second one, no readiness wait and no write; on success a
    valid handle whose two descriptors are open, on failure no descriptor
    open and no socket. *)
Lemma setup_privex_client_accounts (env : environment) (s : state) :
  exists r0 t,
    trace (snd (setup_privex_client env s)) = trace s ++ (c_socket, r0) :: t /\
    Forall (fun e => is_socket (fst e) = false) t /\
    Forall (fun e => is_wait_or_write (fst e) = false) ((c_socket, r0) :: t) /\
    ((fst (setup_privex_client env s) = EXIT_SUCCESS /\
      handle_missing (snd (setup_privex_client env s)) = false /\
      fds_open ((c_socket, r0) :: t) []
      = handle_fds (snd (setup_privex_client env s))) \/
     (fst (setup_privex_client env s) = EXIT_FAILURE /\
      privex_sockfd (snd (setup_privex_client env s)) < 0 /\
      fds_open ((c_socket, r0) :: t) [] = [])).
Proof.
  unfold setup_privex_client.
  run; flatten_trace; do 2 eexists; (split; [ reflexivity | ]);
    (split; [ repeat constructor | ]);
    (split; [ repeat constructor | ]);
    first [ right; split; [ reflexivity | ]; split; [ lia | account ]
          | left; split; [ reflexivity | ];
            assert (Hv : handle_missing
                           {| privex_sockfd := rv r; privex_port := privex_port s;
                              privex_epollfd := rv r3;
                              trace := [] |} = false)
              by (unfold handle_missing; cbn; rewrite Heqb, Heqb2; reflexivity);
            unfold handle_fds, handle_missing in *; simpl_prog;
            split; [ exact Hv | rewrite Hv; account ] ].
Qed.

Lemma handle_same (s s' : state) :
  privex_sockfd s' = privex_sockfd s -> privex_epollfd s' = privex_epollfd s ->
  handle_missing s' = handle_missing s /\ handle_fds s' = handle_fds s.
Proof.
  intros H1 H2. unfold handle_fds, handle_missing. rewrite H1, H2. split; reflexivity.
Qed.

Lemma handle_gone (s : state) :
  privex_sockfd s < 0 -> handle_missing s = true /\ handle_fds s = [].
Proof.
  intros H. unfold handle_fds, handle_missing.
  destruct (Z.ltb_spec (privex_sockfd s) 0); [ split; reflexivity | lia ].
Qed.

Lemma handle_fds_valid (s : state) :
  handle_missing s = false ->
  handle_fds s = [privex_epollfd s; privex_sockfd s].
Proof. intros H. unfold handle_fds. rewrite H. reflexivity. Qed.

Lemma no_setup_no_socket (t : list event) :
  Forall (fun e => is_setup_call (fst e) = false) t ->
  count_calls is_socket t = 0%nat.
Proof.
  apply count_calls_none. intros c; destruct c; cbn; congruence.
Qed.

Lemma tell_privex_loop_handle (env : environment) fuel sendBuff sendBuffLen
    remaining (s : state) :
  handle_missing s = false ->
  exists t,
    trace (snd (tell_privex_loop env fuel sendBuff sendBuffLen remaining s))
      = trace s ++ t /\
    Forall (fun e => is_setup_call (fst e) = false) t /\
    ready_driven t /\
    fds_open t (handle_fds s)
    = handle_fds (snd (tell_privex_loop env fuel sendBuff sendBuffLen
                         remaining s)) /\
    (fst (tell_privex_loop env fuel sendBuff sendBuffLen remaining s)
       = Some EXIT_FAILURE ->
     handle_missing (snd (tell_privex_loop env fuel sendBuff sendBuffLen
                            remaining s)) = true) /\
    (fst (tell_privex_loop env fuel sendBuff sendBuffLen remaining s)
       <> Some EXIT_FAILURE ->
     handle_missing (snd (tell_privex_loop env fuel sendBuff sendBuffLen
                            remaining s)) = false).
Proof.
  intros Hv.
  destruct (tell_privex_loop_accounts env fuel sendBuff sendBuffLen remaining s)
    as (t & Ht & Hc & Hd & Hcase).
  exists t. split; [ exact Ht | ]. split; [ exact Hc | ]. split; [ exact Hd | ].
  rewrite (handle_fds_valid s Hv).
  destruct Hcase as [(H1 & H2 & H3 & H4) | (H1 & H2 & H3 & H4)].
  - destruct (handle_gone _ ltac:(rewrite H2; reflexivity)) as [G1 G2].
    rewrite H4, remove_pair, G2. split; [ reflexivity | ].
    split; [ intros _; exact G1 | intros N; destruct (N H1) ].
  - destruct (handle_same s _ H2 H3) as [G1 G2].
    rewrite H4, G2, (handle_fds_valid s Hv). split; [ reflexivity | ].
    split; [ intros E; destruct (H1 E) | intros _; rewrite G1; exact Hv ].
Qed.

Lemma tell_privex_accounts (env : environment) fuel sendBuff sendBuffLen
    (s : state) :
  exists t,
    trace (snd (tell_privex env fuel sendBuff sendBuffLen s)) = trace s ++ t /\
    count_calls is_socket t = (if handle_missing s then 1 else 0)%nat /\
    (handle_missing s = false ->
     Forall (fun e => is_setup_call (fst e) = false) t) /\
    ready_driven t /\
    fds_open t (handle_fds s)
    = handle_fds (snd (tell_privex env fuel sendBuff sendBuffLen s)) /\
    (fst (tell_privex env fuel sendBuff sendBuffLen s) = Some EXIT_FAILURE ->
     handle_missing (snd (tell_privex env fuel sendBuff sendBuffLen s)) = true) /\
    (fst (tell_privex env fuel sendBuff sendBuffLen s) <> Some EXIT_FAILURE ->
     handle_missing (snd (tell_privex env fuel sendBuff sendBuffLen s)) = false).
Proof.
  unfold tell_privex. destruct (handle_missing s) eqn:Hm.
  - unfold bind.
    destruct (setup_privex_client_accounts env s)
      as (r0 & t0 & Ht0 & Hs0 & Hio0 & Hcase).
    destruct (setup_privex_client env s) as [r s1]. cbn [fst snd] in *.
    assert (Hfds : handle_fds s = []) by (unfold handle_fds; rewrite Hm; reflexivity).
    rewrite Hfds.
    assert (Hone : count_calls is_socket ((c_socket, r0) :: t0) = 1%nat).
    { change ((c_socket, r0) :: t0) with ([(c_socket, r0)] ++ t0).
      rewrite count_calls_app,
        (count_calls_none is_socket is_socket t0 (fun c H => H) Hs0).
      reflexivity. }
    destruct Hcase as [(-> & Hv & Hopen) | (-> & Hneg & Hopen)].
    + change (negb (EXIT_SUCCESS =? EXIT_SUCCESS)) with false. cbv iota.
      destruct (tell_privex_loop_handle env fuel sendBuff sendBuffLen
                  sendBuffLen s1 Hv) as (t & Ht & Hc & Hd & Hf & Hfail & Hok).
      exists (((c_socket, r0) :: t0) ++ t).
      split; [ rewrite Ht, Ht0, <- app_assoc; reflexivity | ].
      split; [ rewrite count_calls_app, Hone, (no_setup_no_socket t Hc);
               reflexivity | ].
      split; [ discriminate | ].
      split; [ apply ready_driven_app; assumption | ].
      split; [ rewrite fds_open_app, Hopen; exact Hf | ].
      split; assumption.
    + change (negb (EXIT_FAILURE =? EXIT_SUCCESS)) with true. cbv iota.
      run. destruct (handle_gone s1 Hneg) as [G1 G2].
      eexists (((c_socket, r0) :: t0) ++ [_]).
      split; [ rewrite Ht0, <- app_assoc; reflexivity | ].
      split; [ rewrite count_calls_app, Hone; reflexivity | ].
      split; [ discriminate | ].
      split; [ apply ready_driven_app; [ exact Hio0 | exact I ] | ].
      unfold handle_fds, handle_missing in *. simpl_prog. rewrite G1.
      split; [ rewrite fds_open_app, Hopen; reflexivity | ].
      split; [ reflexivity | intros N; destruct (N eq_refl) ].
  - destruct (tell_privex_loop_handle env fuel sendBuff sendBuffLen
                sendBuffLen s Hm) as (t & Ht & Hc & Hd & Hf & Hfail & Hok).
    exists t. split; [ exact Ht | ].
    split; [ apply no_setup_no_socket; exact Hc | ].
    split; [ intros _; exact Hc | ].
    split; [ exact Hd | ]. split; [ exact Hf | ]. split; assumption.
Qed.

(** X3. After [tell_privex] has returned, the handle tells what the next
    call does.  After a success the handle is valid and the next call
    reuses it: it makes no call of [socket], [connect] or of the readiness
    set-up.  After a failure the handle is invalid and the next call starts
    by asking for a new socket. *)
Theorem tell_privex_next_call (env : environment) fuel sendBuff sendBuffLen
    (s s' : state) (r : Z) :
  tell_privex env fuel sendBuff sendBuffLen s = (Some r, s') ->
  (r = EXIT_SUCCESS /\ handle_missing s' = false /\
   forall fuel' sendBuff' sendBuffLen',
   exists t,
     trace (snd (tell_privex env fuel' sendBuff' sendBuffLen' s'))
       = trace s' ++ t /\
     Forall (fun e => is_setup_call (fst e) = false) t) \/
  (r = EXIT_FAILURE /\ handle_missing s' = true /\
   forall fuel' sendBuff' sendBuffLen',
   exists r0 t,
     trace (snd (tell_privex env fuel' sendBuff' sendBuffLen' s'))
       = trace s' ++ (c_socket, r0) :: t).
Proof.
  intros E.
  destruct (tell_privex_trace env fuel sendBuff sendBuffLen s)
    as (_ & t1 & _ & _ & _ & Hr).
  destruct (tell_privex_accounts env fuel sendBuff sendBuffLen s)
    as (t2 & _ & _ & _ & _ & _ & Hfail & Hok).
  rewrite E in Hr, Hfail, Hok. cbn [fst snd] in *.
  destruct (Hr r eq_refl) as [-> | [-> _]]; [ left | right ].
  - assert (Hv : handle_missing s' = false) by (apply Hok; discriminate).
    split; [ reflexivity | ]. split; [ exact Hv | ].
    intros fuel' b' l'.
    destruct (tell_privex_accounts env fuel' b' l' s')
      as (t & Ht & _ & Hc & _).
    exists t. split; [ exact Ht | exact (Hc Hv) ].
  - assert (Hm : handle_missing s' = true) by (apply Hfail; reflexivity).
    split; [ reflexivity | ]. split; [ exact Hm | ].
    intros fuel' b' l'.
    destruct (tell_privex_trace env fuel' b' l' s')
      as (_ & t & Ht & _ & Hsock & _).
    destruct (Hsock Hm) as (r0 & t' & ->). eauto.
Qed.

(** The connection is reset after the first write of a record. *)
Lemma tell_privex_next_call_witness :
  (1 = EXIT_SUCCESS /\
   handle_missing (snd (tell_privex (env_cut 1 []) 9 hello_line 6
                          initial_state)) = false /\
   forall fuel' sendBuff' sendBuffLen',
   exists t,
     trace (snd (tell_privex (env_cut 1 []) fuel' sendBuff' sendBuffLen'
                   (snd (tell_privex (env_cut 1 []) 9 hello_line 6
                           initial_state))))
       = trace (snd (tell_privex (env_cut 1 []) 9 hello_line 6
                       initial_state)) ++ t /\
     Forall (fun e => is_setup_call (fst e) = false) t) \/
  (1 = EXIT_FAILURE /\
   handle_missing (snd (tell_privex (env_cut 1 []) 9 hello_line 6
                          initial_state)) = true /\
   forall fuel' sendBuff' sendBuffLen',
   exists r0 t,
     trace (snd (tell_privex (env_cut 1 []) fuel' sendBuff' sendBuffLen'
                   (snd (tell_privex (env_cut 1 []) 9 hello_line 6
                           initial_state))))
       = trace (snd (tell_privex (env_cut 1 []) 9 hello_line 6
                       initial_state)) ++ (c_socket, r0) :: t).
Proof.
  apply (tell_privex_next_call (env_cut 1 []) 9 hello_line 6 initial_state).
  vm_compute. reflexivity.
Defined.

(** X4. Every write of [tell_privex] comes directly after a readiness wait
    that reported a positive count: the client never writes to the socket
    without having been told that it is writable. *)
Theorem tell_privex_ready_driven (env : environment) fuel sendBuff sendBuffLen
    (s : state) :
  exists t,
    trace (snd (tell_privex env fuel sendBuff sendBuffLen s)) = trace s ++ t /\
    ready_driven t.
Proof.
  destruct (tell_privex_accounts env fuel sendBuff sendBuffLen s)
    as (t & Ht & _ & _ & Hd & _).
  exists t. split; assumption.
Qed.

(** ** Whole runs of [load] *)

Lemma load_loop_accounts (env : environment) fuel :
  forall result s,
    (result <> EXIT_SUCCESS -> handle_missing s = true) ->
    exists t,
      trace (snd (load_loop env fuel result s)) = trace s ++ t /\
      (count_calls is_socket t
       <= if (result =? EXIT_SUCCESS)%Z && handle_missing s then 1 else 0)%nat /\
      fds_open t (handle_fds s) = handle_fds (snd (load_loop env fuel result s)) /\
      (forall r, fst (load_loop env fuel result s) = Some r ->
                 r <> EXIT_SUCCESS ->
                 handle_missing (snd (load_loop env fuel result s)) = true).
Proof.
  induction fuel as [ | fuel IH ]; intros result s Hpre; cbn [load_loop].
  - unfold pure. exists []. rewrite app_nil_r. cbn [fst snd].
    split; [ reflexivity | ]. split; [ cbn; lia | ].
    split; [ reflexivity | discriminate ].
  - destruct (Z.eqb_spec result EXIT_SUCCESS) as [-> | Hne].
    + unfold_prog. step. destruct (negb (rv r =? -1)).
      * match goal with
        | |- context [tell_privex env fuel ?b ?l ?st] =>
          destruct (tell_privex_accounts env fuel b l st)
            as (t1 & Ht1 & Hn1 & _ & _ & Hf1 & Hfail & Hok);
          destruct (tell_privex_trace env fuel b l st)
            as (_ & t1' & _ & _ & _ & Hr);
          destruct (tell_privex env fuel b l st) as [[result' | ] s2]
        end; simpl_prog; cbn [fst snd] in *.
        -- destruct (IH result' s2) as (t2 & Ht2 & Hn2 & Hf2 & Hlast).
           { intros N. apply Hfail.
             destruct (Hr result' eq_refl) as [ | [-> _]];
               [ contradiction | reflexivity ]. }
           exists ((c_getline, r) :: t1 ++ t2).
           split; [ rewrite Ht2, Ht1; flatten_trace; reflexivity | ].
           split.
           ++ change ((c_getline, r) :: t1 ++ t2)
                with ([(c_getline, r)] ++ t1 ++ t2).
              rewrite !count_calls_app, Hn1.
              change (count_calls is_socket [(c_getline, r)]) with 0%nat.
              change (handle_missing
                        {| privex_sockfd := privex_sockfd s;
                           privex_port := privex_port s;
                           privex_epollfd := privex_epollfd s;
                           trace := trace s ++ [(c_getline, r)] |})
                with (handle_missing s).
              cbn [andb].
              destruct (Z.eqb_spec result' EXIT_SUCCESS) as [-> | N];
                cbn [andb] in Hn2.
              ** rewrite Hok in Hn2 by discriminate.
                 destruct (handle_missing s); lia.
              ** destruct (handle_missing s); lia.
           ++ split; [ | exact Hlast ].
              change ((c_getline, r) :: t1 ++ t2)
                with ([(c_getline, r)] ++ t1 ++ t2).
              rewrite !fds_open_app. cbn [fds_open fold_left track_fd fst].
              fold (fds_open t1 (handle_fds s)).
              change (handle_fds s) with
                (handle_fds {| privex_sockfd := privex_sockfd s;
                               privex_port := privex_port s;
                               privex_epollfd := privex_epollfd s;
                               trace := trace s ++ [(c_getline, r)] |}).
              rewrite Hf1. exact Hf2.
        -- exists ((c_getline, r) :: t1).
           split; [ rewrite Ht1; flatten_trace; reflexivity | ].
           split.
           ++ change ((c_getline, r) :: t1) with ([(c_getline, r)] ++ t1).
              rewrite count_calls_app, Hn1. cbn [andb].
              change (handle_missing
                        {| privex_sockfd := privex_sockfd s;
                           privex_port := privex_port s;
                           privex_epollfd := privex_epollfd s;
                           trace := trace s ++ [(c_getline, r)] |})
                with (handle_missing s).
              destruct (handle_missing s); cbn; lia.
           ++ split; [ | discriminate ].
              change ((c_getline, r) :: t1) with ([(c_getline, r)] ++ t1).
              rewrite fds_open_app. exact Hf1.
      * simpl_prog. eexists. split; [ reflexivity | ].
        split; [ cbn; destruct (handle_missing s); cbn; lia | ].
        split; [ reflexivity | ]. intros r0 E N. cbn [fst] in E. congruence.
    + unfold pure. exists []. rewrite app_nil_r. cbn [fst snd andb].
      split; [ reflexivity | ]. split; [ cbn; lia | ].
      split; [ reflexivity | ]. intros r0 E N. apply Hpre. exact Hne.
Qed.

(** X5. A run of [load] asks for at most one socket, however many lines
    it sends and however it ends: the first failure ends the run, so the
    client never reconnects within a run.  When [load] starts with a
    valid handle it asks for none. *)
Theorem load_opens_one_connection (env : environment) (fuel : nat) (port : Z)
    (s : state) :
  exists t,
    trace (snd (load env fuel port s)) = trace s ++ t /\
    (count_calls is_socket t <= if handle_missing s then 1 else 0)%nat.
Proof.
  unfold load. unfold_prog.
  match goal with
  | |- context [load_loop env fuel ?r ?st] =>
    destruct (load_loop_accounts env fuel r st) as (t & Ht & Hn & _)
  end; [ contradiction | ].
  exists t. split; [ exact Ht | exact Hn ].
Qed.

(** X6. Over a run of [load] the descriptors the process has open are at
    every end exactly those the handle accounts for: [load] closes every
    descriptor it invalidates and invalidates every descriptor it closes.
    A run that returns failure leaves none open. *)
Theorem load_descriptor_accounting (env : environment) (fuel : nat) (port : Z)
    (s : state) :
  exists t,
    trace (snd (load env fuel port s)) = trace s ++ t /\
    fds_open t (handle_fds s) = handle_fds (snd (load env fuel port s)) /\
    (fst (load env fuel port s) = Some EXIT_FAILURE ->
     handle_fds (snd (load env fuel port s)) = []).
Proof.
  unfold load. unfold_prog.
  match goal with
  | |- context [load_loop env fuel ?r ?st] =>
    destruct (load_loop_accounts env fuel r st) as (t & Ht & _ & Hf & Hlast)
  end; [ contradiction | ].
  exists t. split; [ exact Ht | ]. split; [ exact Hf | ].
  intros E. unfold handle_fds. rewrite (Hlast _ E); [ reflexivity | discriminate ].
Qed.

(** ** What reaches the socket when a send does not succeed *)

Lemma firstn_add_skipn {A} (a b : nat) (l : list A) :
  firstn (a + b) l = firstn a l ++ firstn b (skipn a l).
Proof.
  revert l. induction a as [ | a IH ]; intros l; [ reflexivity | ].
  destruct l as [ | x l ]; cbn [Nat.add firstn skipn app].
  - rewrite firstn_nil. reflexivity.
  - rewrite IH. reflexivity.
Qed.

Lemma tell_privex_loop_prefix (env : environment) (sendBuff : list byte) :
  write_contract env -> Z.of_nat (length sendBuff) < SIZE_MOD ->
  forall fuel remaining s,
    0 <= remaining <= Z.of_nat (length sendBuff) ->
    exists t n,
      trace (snd (tell_privex_loop env fuel sendBuff
                    (Z.of_nat (length sendBuff)) remaining s)) = trace s ++ t /\
      0 <= n <= remaining /\
      sent_bytes t
      = firstn (Z.to_nat n)
          (skipn (Z.to_nat (Z.of_nat (length sendBuff) - remaining)) sendBuff) /\
      bytes_written t = n.
Proof.
  intros Hw Hlen.
  induction fuel as [ | fuel IH ]; intros remaining s Hr;
    cbn [tell_privex_loop].
  - unfold pure. exists [], 0. rewrite app_nil_r.
    repeat split; try lia; reflexivity.
  - destruct (remaining >? 0) eqn:G.
    + run.
      * flatten_trace. eexists. exists 0. split; [ reflexivity | ].
        repeat split; try lia; reflexivity.
      * flatten_trace. eexists. exists 0. split; [ reflexivity | ].
        split; [ lia | ]. unfold sent_bytes, bytes_written, accepted,
          written_count. cbn [flat_map fold_right fst snd app].
        rewrite Heqb1. split; [ reflexivity | lia ].
      * assert (Hoff : to_size_t (Z.of_nat (length sendBuff) - remaining)
                       = Z.of_nat (length sendBuff) - remaining).
        { unfold to_size_t. apply Z.mod_small. lia. }
        rewrite Hoff in *.
        assert (Hwr : rv r0 <= remaining).
        { rewrite Er0. eapply Z.le_trans; [ apply Hw | ].
          pose proof (firstn_le_length (Z.to_nat remaining)
            (skipn (Z.to_nat (Z.of_nat (length sendBuff) - remaining)) sendBuff)).
          lia. }
        assert (H0 : 0 <= rv r0) by lia.
        assert (Hsz : to_size_t (remaining - to_size_t (rv r0))
                      = remaining - rv r0).
        { unfold to_size_t. rewrite (Z.mod_small (rv r0)) by lia.
          apply Z.mod_small. lia. }
        rewrite Hsz.
        match goal with
        | |- context [tell_privex_loop env fuel sendBuff _ ?rem ?st] =>
          destruct (IH rem st ltac:(lia)) as (t & n & Ht & Hn & Hsent & Hcnt)
        end. simpl_prog.
        eexists (_ :: _ :: t). exists (rv r0 + n).
        split; [ rewrite Ht; flatten_trace; reflexivity | ].
        split; [ lia | ]. split.
        -- cbn [sent_bytes flat_map]. fold (sent_bytes t). rewrite Hsent.
           unfold accepted; cbn [fst snd app]. rewrite Heqb1.
           rewrite firstn_firstn, Nat.min_l by lia.
           replace (Z.to_nat (Z.of_nat (length sendBuff) - (remaining - rv r0)))
             with (Z.to_nat (rv r0)
                   + Z.to_nat (Z.of_nat (length sendBuff) - remaining))%nat
             by lia.
           rewrite <- skipn_skipn, Z2Nat.inj_add by lia.
           symmetry. apply firstn_add_skipn.
        -- cbn [bytes_written fold_right]. fold (bytes_written t). rewrite Hcnt.
           unfold written_count; cbn [fst snd]. lia.
      * match goal with
        | |- context [tell_privex_loop env fuel sendBuff _ ?rem ?st] =>
          destruct (IH rem st Hr) as (t & n & Ht & Hn & Hsent & Hcnt)
        end. simpl_prog.
        eexists (_ :: t). exists n.
        split; [ rewrite Ht; flatten_trace; reflexivity | ].
        split; [ exact Hn | ]. split; [ exact Hsent | exact Hcnt ].
    + unfold pure. exists [], 0. rewrite app_nil_r.
      repeat split; try lia; reflexivity.
Qed.

(** X7. However a send ends (success, failure after a write or a wait
    error, or still under way), what the socket has accepted so far is a
    prefix of the record, as long as the number of bytes the writes
    reported: [tell_privex] sends no byte twice, skips none and sends
    nothing that is not in the record. *)
Theorem tell_privex_sends_prefix (env : environment) (sendBuff : list byte)
    fuel (s : state) :
  write_contract env -> Z.of_nat (length sendBuff) < SIZE_MOD ->
  exists t n,
    trace (snd (tell_privex env fuel sendBuff (Z.of_nat (length sendBuff)) s))
      = trace s ++ t /\
    0 <= n <= Z.of_nat (length sendBuff) /\
    sent_bytes t = firstn (Z.to_nat n) sendBuff /\
    bytes_written t = n.
Proof.
  intros Hw Hlen. unfold tell_privex. destruct (handle_missing s).
  - unfold bind.
    destruct (setup_privex_client_trace env s) as (_ & r0 & t0 & Ht0 & Hc0).
    destruct (setup_privex_client env s) as [r s1]. cbn [snd] in Ht0.
    destruct (silent_events ((c_socket, r0) :: t0)) as (S1 & S2 & _).
    { constructor; [ reflexivity | ].
      eapply client_setup_no_write; exact Hc0. }
    destruct (negb (r =? EXIT_SUCCESS)).
    + run. eexists (((c_socket, r0) :: t0) ++ [_]). exists 0.
      split; [ rewrite Ht0, <- app_assoc; reflexivity | ].
      split; [ lia | ].
      rewrite sent_bytes_app, bytes_written_app, S1, S2. split; reflexivity.
    + destruct (tell_privex_loop_prefix env sendBuff Hw Hlen fuel
                  (Z.of_nat (length sendBuff)) s1 ltac:(lia))
        as (t & n & Ht & Hn & Hsent & Hcnt).
      exists (((c_socket, r0) :: t0) ++ t), n.
      split; [ rewrite Ht, Ht0, <- app_assoc; reflexivity | ].
      split; [ exact Hn | ].
      rewrite sent_bytes_app, bytes_written_app, S1, S2, Hsent, Hcnt.
      rewrite Z.sub_diag. split; reflexivity.
  - destruct (tell_privex_loop_prefix env sendBuff Hw Hlen fuel
                (Z.of_nat (length sendBuff)) s ltac:(lia))
      as (t & n & Ht & Hn & Hsent & Hcnt).
    exists t, n. rewrite Z.sub_diag in Hsent. repeat split; try assumption; lia.
Qed.

Lemma env_cut_contract n lines : write_contract (env_cut n lines).
Proof.
  intros h fd buf. cbn [env_cut].
  destruct (count_calls is_write h <? n)%nat; cbn [rv]; lia.
Qed.

(** The connection is reset after two writes of two bytes each. *)
Lemma tell_privex_sends_prefix_witness :
  exists t n,
    trace (snd (tell_privex (env_cut 2 []) 9 hello_line
                  (Z.of_nat (length hello_line)) initial_state))
      = trace initial_state ++ t /\
    0 <= n <= Z.of_nat (length hello_line) /\
    sent_bytes t = firstn (Z.to_nat n) hello_line /\
    bytes_written t = n.
Proof.
  apply (tell_privex_sends_prefix (env_cut 2 []) hello_line 9 initial_state).
  - apply env_cut_contract.
  - reflexivity.
Defined.

(** ** What a successful run of [load] has sent *)

Lemma tell_privex_success (env : environment) (sendBuff : list byte) fuel
    (s s' : state) :
  write_contract env -> Z.of_nat (length sendBuff) < SIZE_MOD ->
  tell_privex env fuel sendBuff (Z.of_nat (length sendBuff)) s
    = (Some EXIT_SUCCESS, s') ->
  exists t,
    trace s' = trace s ++ t /\ sent_bytes t = sendBuff /\ lines_read t = [].
Proof.
  intros Hw Hlen E.
  destruct (tell_privex_trace env fuel sendBuff (Z.of_nat (length sendBuff)) s)
    as (_ & t & Ht & Hc & _ & _).
  rewrite E in Ht. cbn [snd] in Ht. exists t. split; [ exact Ht | ].
  split.
  - revert E. unfold tell_privex. destruct (handle_missing s).
    + unfold bind.
      destruct (setup_privex_client_trace env s) as (_ & r0 & t0 & Ht0 & Hc0).
      destruct (setup_privex_client env s) as [r s1]. cbn [snd] in Ht0.
      destruct (negb (r =? EXIT_SUCCESS)).
      * run. intros H. destruct (failure_is_not_success _ _ H).
      * intros H.
        apply (tell_privex_loop_sends env Hw sendBuff Hlen) in H; [ | lia ].
        destruct H as (_ & t1 & Ht1 & Hs1 & _).
        rewrite Ht0, <- app_assoc in Ht1. rewrite Ht in Ht1.
        apply app_inv_head in Ht1. subst t.
        destruct (silent_events ((c_socket, r0) :: t0)) as (S1 & _).
        { constructor; [ reflexivity | ].
          eapply client_setup_no_write; exact Hc0. }
        rewrite sent_bytes_app, S1, Hs1, Z.sub_diag. reflexivity.
    + intros H.
      apply (tell_privex_loop_sends env Hw sendBuff Hlen) in H; [ | lia ].
      destruct H as (_ & t1 & Ht1 & Hs1 & _).
      rewrite Ht in Ht1. apply app_inv_head in Ht1. subst t.
      rewrite Hs1, Z.sub_diag. reflexivity.
  - clear Ht. induction Hc as [ | [c r] t Hc _ IH ]; [ reflexivity | ].
    cbn [lines_read flat_map]. fold (lines_read t). rewrite IH.
    unfold line_of; cbn [fst] in *. destruct c; cbn in Hc; try reflexivity.
    contradiction.
Qed.

Lemma load_loop_success_start (env : environment) fuel result (s s' : state) :
  load_loop env fuel result s = (Some EXIT_SUCCESS, s') ->
  fuel <> 0%nat /\ result = EXIT_SUCCESS.
Proof.
  destruct fuel as [ | fuel ]; cbn [load_loop]; [ unfold pure; discriminate | ].
  destruct (Z.eqb_spec result EXIT_SUCCESS) as [-> | N].
  - intros _. split; [ discriminate | reflexivity ].
  - unfold pure. intros H. inversion H. contradiction.
Qed.

Lemma load_loop_sends (env : environment) :
  write_contract env -> getline_contract env ->
  forall fuel result s s',
    load_loop env fuel result s = (Some EXIT_SUCCESS, s') ->
    exists t, trace s' = trace s ++ t /\ sent_bytes t = lines_read t.
Proof.
  intros Hw Hg.
  induction fuel as [ | fuel IH ]; intros result s s';
    cbn [load_loop]; [ unfold pure; discriminate | ].
  destruct (Z.eqb_spec result EXIT_SUCCESS) as [-> | N];
    [ | unfold pure; intros H; inversion H; contradiction ].
  unfold_prog. step. destruct (Z.eqb_spec (rv r) (-1)) as [Hstop | Hline];
    cbn [negb].
  - intros H. inversion H; subst s'. cbn [trace]. eexists.
    split; [ reflexivity | ].
    unfold sent_bytes, lines_read, accepted, line_of.
    cbn [flat_map fst snd app]. rewrite Hstop. reflexivity.
  - destruct (Hg (trace s)) as [Hc | [Hc Hb]]; rewrite <- Er in Hc;
      [ contradiction | ]. rewrite <- Er in Hb.
    assert (Hsz : to_size_t (rv r) = Z.of_nat (length (dat r))).
    { unfold to_size_t. rewrite Hc. apply Z.mod_small. lia. }
    rewrite Hsz.
    match goal with
    | |- context [tell_privex env fuel ?b ?l ?st] =>
      pose proof (tell_privex_success env b fuel st) as Hsend;
      destruct (tell_privex env fuel b l st) as [[result' | ] s2]
    end; simpl_prog; [ | discriminate ].
    intros H. destruct (load_loop_success_start _ _ _ _ _ H) as [_ ->].
    destruct (Hsend s2 Hw Hb eq_refl) as (t1 & Ht1 & Hs1 & Hl1).
    destruct (IH _ _ _ H) as (t2 & Ht2 & Hs2).
    exists ((c_getline, r) :: t1 ++ t2).
    split; [ rewrite Ht2, Ht1; flatten_trace; reflexivity | ].
    change ((c_getline, r) :: t1 ++ t2) with ([(c_getline, r)] ++ t1 ++ t2).
    unfold sent_bytes, lines_read in *. rewrite !flat_map_app, Hs1, Hl1, Hs2.
    unfold accepted, line_of. cbn [flat_map fst snd app].
    destruct (Z.eqb_spec (rv r) (-1)); [ contradiction | ].
    rewrite app_nil_r. reflexivity.
Qed.

(** X8. When [load] returns success, the bytes the socket accepted during
    the run are the lines [getline] delivered, one after the other, each
    complete and in the order they were read: nothing of the input is lost,
    repeated or reordered on the way to the socket. *)
Theorem load_sends_every_line (env : environment) (fuel : nat) (port : Z)
    (s s' : state) :
  write_contract env -> getline_contract env ->
  load env fuel port s = (Some EXIT_SUCCESS, s') ->
  exists t, trace s' = trace s ++ t /\ sent_bytes t = lines_read t.
Proof.
  intros Hw Hg. unfold load. unfold_prog. intros H.
  apply (load_loop_sends env Hw Hg) in H. exact H.
Qed.

Lemma env_peer_two_lines_contract chunk e incoming :
  getline_contract (env_peer chunk [hello_line; bytes_of "bye"] e incoming).
Proof.
  intros h. cbn [env_peer].
  destruct (count_calls is_getline h) as [ | [ | [ | n ] ] ];
    cbn; (left; reflexivity) || (right; split; reflexivity).
Qed.

(** Two lines, sent two bytes at a time. *)
Lemma load_sends_every_line_witness :
  exists t,
    trace (snd (load (env_peer 2 [hello_line; bytes_of "bye"] 0 []) 9 9000
                  initial_state)) = trace initial_state ++ t /\
    sent_bytes t = lines_read t.
Proof.
  apply (load_sends_every_line (env_peer 2 [hello_line; bytes_of "bye"] 0 [])
           9 9000 initial_state).
  - intros h fd buf. apply Z.le_min_r.
  - apply env_peer_two_lines_contract.
  - vm_compute. reflexivity.
Defined.

(** ** Nobody listening *)

Lemma setup_privex_client_refused (env : environment) (s : state) :
  refused env -> fst (setup_privex_client env s) = EXIT_FAILURE.
Proof.
  intros Href. unfold setup_privex_client.
  run; try reflexivity; exfalso;
    match goal with
    | E : ?r = env ?h (c_connect ?fd ?p) |- _ =>
      pose proof (Href h fd p) as Hx; rewrite <- E in Hx; lia
    end.
Qed.

(** X9. With nobody listening on the port, the first line [load] reads
    makes it try to connect and fail: [load] returns failure after calls
    that only set the connection up and report the error, the last one
    being the diagnostic of [tell_privex]; no readiness wait and no write is
    attempted, no second line is read, and no descriptor is left in the
    handle. *)
Theorem load_connection_refused (env : environment) (fuel : nat) (port : Z)
    (s : state) :
  refused env -> handle_missing s = true ->
  rv (env (trace s) c_getline) <> -1 ->
  fst (load env (S (S fuel)) port s) = Some EXIT_FAILURE /\
  handle_missing (snd (load env (S (S fuel)) port s)) = true /\
  exists t m,
    trace (snd (load env (S (S fuel)) port s))
    = trace s ++ (c_getline, env (trace s) c_getline) :: t ++
      [(c_fprintf_stderr
          "Privex Error : Server not running or not on port expected!\n"
          no_arg, m)] /\
    Forall (fun e => client_setup_call port (fst e)) t.
Proof.
  intros Href Hm Hline.
  assert (H : exists s' t m,
            load env (S (S fuel)) port s = (Some EXIT_FAILURE, s') /\
            handle_missing s' = true /\
            trace s'
            = trace s ++ (c_getline, env (trace s) c_getline) :: t ++
              [(c_fprintf_stderr
                  "Privex Error : Server not running or not on port expected!\n"
                  no_arg, m)] /\
            Forall (fun e => client_setup_call port (fst e)) t).
  { unfold load. cbn [load_loop].
    change (EXIT_SUCCESS =? EXIT_SUCCESS) with true. cbv iota. unfold_prog.
    step. subst r.
    destruct (Z.eqb_spec (rv (env (trace s) c_getline)) (-1));
      [ contradiction | ]. cbn [negb].
    unfold tell_privex, handle_missing. simpl_prog.
    fold (handle_missing s). rewrite Hm. unfold bind.
    match goal with
    | |- context [setup_privex_client env ?st] =>
      pose proof (setup_privex_client_refused env st Href) as Hfail;
      destruct (setup_privex_client_trace env st) as (Hp & r0 & t0 & Ht0 & Hc0);
      destruct (setup_privex_client_accounts env st)
        as (r0' & t0' & _ & _ & _ & Hcase);
      destruct (setup_privex_client env st) as [r s1]
    end. cbn [fst snd] in *. subst r.
    destruct Hcase as [(Hbad & _) | (_ & Hneg & _)]; [ discriminate Hbad | ].
    change (negb (EXIT_FAILURE =? EXIT_SUCCESS)) with true. cbv iota.
    unfold_prog. step.
    change (EXIT_FAILURE =? EXIT_SUCCESS) with false. cbv iota.
    eexists. exists ((c_socket, r0) :: t0), r.
    split; [ reflexivity | ].
    split; [ apply handle_gone; exact Hneg | ]. simpl_prog.
    split; [ rewrite Ht0; flatten_trace; reflexivity | ].
    constructor; [ exact I | exact Hc0 ]. }
  destruct H as (s' & t & m & E & Hgone & Ht & Hc). rewrite E. cbn [fst snd].
  split; [ reflexivity | ]. split; [ exact Hgone | ]. eauto.
Qed.

Lemma env_refused_refuses lines : refused (env_refused lines).
Proof. intros h fd p. reflexivity. Qed.

(** One line to send and no server. *)
Lemma load_connection_refused_witness :
  fst (load (env_refused [hello_line]) 2 9000 initial_state)
    = Some EXIT_FAILURE /\
  handle_missing (snd (load (env_refused [hello_line]) 2 9000 initial_state))
    = true /\
  exists t m,
    trace (snd (load (env_refused [hello_line]) 2 9000 initial_state))
    = trace initial_state ++
      (c_getline, env_refused [hello_line] (trace initial_state) c_getline)
      :: t ++
      [(c_fprintf_stderr
          "Privex Error : Server not running or not on port expected!\n"
          no_arg, m)] /\
    Forall (fun e => client_setup_call 9000 (fst e)) t.
Proof.
  apply (load_connection_refused (env_refused [hello_line]) 0 9000
           initial_state).
  - apply env_refused_refuses.
  - reflexivity.
  - vm_compute. discriminate.
Defined.

(** ** The receive path *)

Lemma setup_privex_server_accounts (env : environment) (s : state) :
  exists t,
    trace (snd (setup_privex_server env s)) = trace s ++ t /\
    Forall (fun e => is_read (fst e) = false) t /\
    ((fst (setup_privex_server env s) = EXIT_SUCCESS /\
      handle_missing (snd (setup_privex_server env s)) = false /\
      fds_open t [] = handle_fds (snd (setup_privex_server env s))) \/
     (fst (setup_privex_server env s) = EXIT_FAILURE /\
      privex_sockfd (snd (setup_privex_server env s)) < 0 /\
      fds_open t [] = [])).
Proof.
  unfold setup_privex_server.
  run; flatten_trace; eexists; (split; [ reflexivity | ]);
    (split; [ repeat constructor | ]);
    first [ right; split; [ reflexivity | ]; split; [ lia | account ]
          | left; split; [ reflexivity | ];
            assert (Hv : handle_missing
                           {| privex_sockfd := rv r; privex_port := privex_port s;
                              privex_epollfd := rv r2;
                              trace := [] |} = false)
              by (unfold handle_missing; cbn; rewrite Heqb, Heqb2; reflexivity);
            unfold handle_fds, handle_missing in *; simpl_prog;
            split; [ exact Hv | rewrite Hv; account ] ].
Qed.

Lemma echo_data_body_accounts (env : environment) (s : state) :
  handle_missing s = false ->
  exists t,
    trace (snd (echo_data_body env s)) = trace s ++ t /\
    (count_calls is_read t <= 1)%nat /\
    fds_open t (handle_fds s) = handle_fds (snd (echo_data_body env s)) /\
    ((fst (echo_data_body env s) = Returned EXIT_FAILURE /\
      handle_missing (snd (echo_data_body env s)) = true) \/
     (fst (echo_data_body env s) = NoValue /\
      handle_missing (snd (echo_data_body env s)) = false)).
Proof.
  intros Hv. rewrite (handle_fds_valid s Hv). unfold echo_data_body.
  run; flatten_trace; eexists; (split; [ reflexivity | ]);
    (split; [ cbn; lia | ]);
    first [ split; [ unfold handle_fds, handle_missing; simpl_prog;
                     cbn [Z.ltb Z.compare orb]; account
                   | left; split; reflexivity ]
          | split; [ unfold handle_fds; unfold handle_missing in *;
                     simpl_prog; rewrite Hv; reflexivity
                   | right; split; [ reflexivity | exact Hv ] ] ].
Qed.

Lemma no_read_count (t : list event) :
  Forall (fun e => is_read (fst e) = false) t -> count_calls is_read t = 0%nat.
Proof. apply count_calls_none. intros c H; exact H. Qed.

(** X10. [echo_data] reads from the socket at most once.  It either
    returns [EXIT_FAILURE], and then the handle is invalid, or it ends
    without returning a value, and then the handle is valid: no path
    returns [EXIT_SUCCESS].  Either way the descriptors left open are
    those the handle accounts for. *)
Theorem echo_data_outcome (env : environment) (s : state) :
  exists t,
    trace (snd (echo_data env s)) = trace s ++ t /\
    (count_calls is_read t <= 1)%nat /\
    fds_open t (handle_fds s) = handle_fds (snd (echo_data env s)) /\
    ((fst (echo_data env s) = Returned EXIT_FAILURE /\
      handle_missing (snd (echo_data env s)) = true) \/
     (fst (echo_data env s) = NoValue /\
      handle_missing (snd (echo_data env s)) = false)).
Proof.
  unfold echo_data. destruct (handle_missing s) eqn:Hm.
  - assert (Hfds : handle_fds s = [])
      by (unfold handle_fds; rewrite Hm; reflexivity).
    rewrite Hfds. unfold bind.
    destruct (setup_privex_server_accounts env s) as (t0 & Ht0 & Hr0 & Hcase).
    destruct (setup_privex_server env s) as [r s1]. cbn [fst snd] in *.
    destruct Hcase as [(-> & Hv & Hopen) | (-> & Hneg & Hopen)].
    + change (negb (EXIT_SUCCESS =? EXIT_SUCCESS)) with false. cbv iota.
      destruct (echo_data_body_accounts env s1 Hv) as (t & Ht & Hn & Hf & Hc).
      exists (t0 ++ t).
      split; [ rewrite Ht, Ht0, <- app_assoc; reflexivity | ].
      split; [ rewrite count_calls_app, (no_read_count t0 Hr0); exact Hn | ].
      split; [ rewrite fds_open_app, Hopen; exact Hf | exact Hc ].
    + change (negb (EXIT_FAILURE =? EXIT_SUCCESS)) with true. cbv iota.
      run. destruct (handle_gone s1 Hneg) as [G1 G2].
      eexists (t0 ++ [_]).
      split; [ rewrite Ht0, <- app_assoc; reflexivity | ].
      split; [ rewrite count_calls_app, (no_read_count t0 Hr0); cbn; lia | ].
      unfold handle_fds, handle_missing in *. simpl_prog. rewrite G1.
      split; [ rewrite fds_open_app, Hopen; reflexivity | ].
      left. split; reflexivity.
  - apply echo_data_body_accounts. exact Hm.
Qed.

Lemma echo_data_accounts (env : environment) (s : state) :
  exists t,
    trace (snd (echo_data env s)) = trace s ++ t /\
    (count_calls is_read t <= 1)%nat /\
    fds_open t (handle_fds s) = handle_fds (snd (echo_data env s)) /\
    (forall v, fst (echo_data env s) = Returned v -> v = EXIT_FAILURE).
Proof.
  unfold echo_data. destruct (handle_missing s) eqn:Hm.
  - assert (Hfds : handle_fds s = [])
      by (unfold handle_fds; rewrite Hm; reflexivity).
    rewrite Hfds. unfold bind.
    destruct (setup_privex_server_accounts env s) as (t0 & Ht0 & Hr0 & Hcase).
    destruct (setup_privex_server env s) as [r s1]. cbn [fst snd] in *.
    destruct Hcase as [(-> & Hv & Hopen) | (-> & Hneg & Hopen)].
    + change (negb (EXIT_SUCCESS =? EXIT_SUCCESS)) with false. cbv iota.
      destruct (echo_data_body_accounts env s1 Hv) as (t & Ht & Hn & Hf & Hc).
      exists (t0 ++ t).
      split; [ rewrite Ht, Ht0, <- app_assoc; reflexivity | ].
      split; [ rewrite count_calls_app, (no_read_count t0 Hr0); exact Hn | ].
      split; [ rewrite fds_open_app, Hopen; exact Hf | ].
      intros v E. destruct Hc as [[Hc _] | [Hc _]]; congruence.
    + change (negb (EXIT_FAILURE =? EXIT_SUCCESS)) with true. cbv iota.
      run. destruct (handle_gone s1 Hneg) as [G1 G2].
      eexists (t0 ++ [_]).
      split; [ rewrite Ht0, <- app_assoc; reflexivity | ].
      split; [ rewrite count_calls_app, (no_read_count t0 Hr0); cbn; lia | ].
      unfold handle_fds, handle_missing in *. simpl_prog. rewrite G1.
      split; [ rewrite fds_open_app, Hopen; reflexivity | ].
      intros v E. congruence.
  - destruct (echo_data_body_accounts env s Hm) as (t & Ht & Hn & Hf & Hc).
    exists t. repeat split; try assumption.
    intros v E. destruct Hc as [[Hc _] | [Hc _]]; congruence.
Qed.

Lemma dump_loop_accounts (env : environment) fuel :
  forall s,
    (forall v, fst (dump_loop env fuel s) = Some (Exit v) -> v = EXIT_FAILURE) /\
    exists t,
      trace (snd (dump_loop env fuel s)) = trace s ++ t /\
      (count_calls is_read t <= 1)%nat /\
      fds_open t (handle_fds s) = handle_fds (snd (dump_loop env fuel s)).
Proof.
  induction fuel as [ | fuel IH ]; intros s; cbn [dump_loop].
  - unfold pure. split; [ discriminate | ]. exists [].
    rewrite app_nil_r. repeat split. cbn; lia.
  - unfold_prog. step. destruct (rv r =? -1).
    + step. split; [ intros v E; cbn [fst] in E; congruence | ].
      flatten_trace. eexists. split; [ reflexivity | ].
      split; [ cbn; lia | reflexivity ].
    + destruct (rv r >? 0).
      * match goal with
        | |- context [echo_data env ?st] =>
          destruct (echo_data_accounts env st) as (t & Ht & Hn & Hf & Hc);
          destruct (echo_data env st) as [[v | ] s2]
        end; simpl_prog; cbn [fst snd] in *.
        -- rewrite (Hc v eq_refl).
           change (negb (EXIT_FAILURE =? EXIT_SUCCESS)) with true. cbv iota.
           cbn [fst snd].
           split; [ intros v' E; congruence | ].
           exists ((c_epoll_wait (privex_epollfd s) 1 (-1), r) :: t).
           split; [ rewrite Ht; flatten_trace; reflexivity | ].
           change ((c_epoll_wait (privex_epollfd s) 1 (-1), r) :: t)
             with ([(c_epoll_wait (privex_epollfd s) 1 (-1), r)] ++ t).
           rewrite count_calls_app, fds_open_app.
           split; [ cbn; lia | exact Hf ].
        -- split; [ discriminate | ].
           exists ((c_epoll_wait (privex_epollfd s) 1 (-1), r) :: t).
           split; [ rewrite Ht; flatten_trace; reflexivity | ].
           change ((c_epoll_wait (privex_epollfd s) 1 (-1), r) :: t)
             with ([(c_epoll_wait (privex_epollfd s) 1 (-1), r)] ++ t).
           rewrite count_calls_app, fds_open_app.
           split; [ cbn; lia | exact Hf ].
      * destruct (IH (mkState (privex_sockfd s) (privex_port s)
                        (privex_epollfd s)
                        (trace s ++ [(c_epoll_wait (privex_epollfd s) 1 (-1), r)])))
          as (Hexit & t' & Ht' & Hn' & Hf').
        simpl_prog. split; [ exact Hexit | ].
        exists ((c_epoll_wait (privex_epollfd s) 1 (-1), r) :: t').
        split; [ rewrite Ht'; flatten_trace; reflexivity | ].
        change ((c_epoll_wait (privex_epollfd s) 1 (-1), r) :: t')
          with ([(c_epoll_wait (privex_epollfd s) 1 (-1), r)] ++ t').
        rewrite count_calls_app, fds_open_app.
        split; [ cbn; lia | exact Hf' ].
Qed.

(** X11. No run of [dump] ends with the status [EXIT_SUCCESS], and up to
    the point where it ends, or uses the value [echo_data] did not return,
    a run has read from the socket at most once; the descriptors open at
    that point are those the handle accounts for. *)
Theorem dump_never_succeeds (env : environment) (fuel : nat) (port : Z)
    (s : state) :
  fst (dump env fuel port s) <> Some (Exit EXIT_SUCCESS) /\
  exists t,
    trace (snd (dump env fuel port s)) = trace s ++ t /\
    (count_calls is_read t <= 1)%nat /\
    fds_open t (handle_fds s) = handle_fds (snd (dump env fuel port s)).
Proof.
  unfold dump. unfold_prog.
  match goal with
  | |- context [dump_loop env fuel ?st] =>
    destruct (dump_loop_accounts env fuel st) as (Hexit & t & Ht & Hn & Hf)
  end.
  split; [ intros E; specialize (Hexit _ E); discriminate | ].
  exists t. repeat split; assumption.
Qed.

(** ** Failures are reported *)

Ltac find_error :=
  unfold reports_error;
  repeat first [ apply Exists_cons_hd; reflexivity | apply Exists_cons_tl ].

Lemma reports_error_app_l (a b : list event) :
  reports_error a -> reports_error (a ++ b).
Proof. intros H. apply Exists_app. left. exact H. Qed.

Lemma reports_error_app_r (a b : list event) :
  reports_error b -> reports_error (a ++ b).
Proof. intros H. apply Exists_app. right. exact H. Qed.

Lemma setup_privex_client_reports (env : environment) (s : state) :
  exists t,
    trace (snd (setup_privex_client env s)) = trace s ++ t /\
    (fst (setup_privex_client env s) <> EXIT_SUCCESS -> reports_error t).
Proof.
  unfold setup_privex_client.
  run; flatten_trace; eexists; (split; [ reflexivity | ]);
    intros H; first [ solve [ find_error ] | destruct (H eq_refl) ].
Qed.

Lemma setup_privex_server_reports (env : environment) (s : state) :
  exists t,
    trace (snd (setup_privex_server env s)) = trace s ++ t /\
    (fst (setup_privex_server env s) <> EXIT_SUCCESS -> reports_error t).
Proof.
  unfold setup_privex_server.
  run; flatten_trace; eexists; (split; [ reflexivity | ]);
    intros H; first [ solve [ find_error ] | destruct (H eq_refl) ].
Qed.

Lemma tell_privex_loop_reports (env : environment) fuel sendBuff sendBuffLen :
  forall remaining s,
    exists t,
      trace (snd (tell_privex_loop env fuel sendBuff sendBuffLen remaining s))
        = trace s ++ t /\
      (fst (tell_privex_loop env fuel sendBuff sendBuffLen remaining s)
         = Some EXIT_FAILURE -> reports_error t).
Proof.
  induction fuel as [ | fuel IH ]; intros remaining s; cbn [tell_privex_loop].
  - unfold pure. exists []. rewrite app_nil_r. split; [ reflexivity | discriminate ].
  - destruct (remaining >? 0).
    + run.
      * flatten_trace. eexists. split; [ reflexivity | ]. intros _. find_error.
      * flatten_trace. eexists. split; [ reflexivity | ]. intros _. find_error.
      * match goal with
        | |- context [tell_privex_loop env fuel sendBuff sendBuffLen ?rem ?st] =>
          destruct (IH rem st) as (t & Ht & He)
        end. simpl_prog. eexists (_ :: _ :: t).
        split; [ rewrite Ht; flatten_trace; reflexivity | ].
        intros E. apply Exists_cons_tl, Exists_cons_tl, He, E.
      * match goal with
        | |- context [tell_privex_loop env fuel sendBuff sendBuffLen ?rem ?st] =>
          destruct (IH rem st) as (t & Ht & He)
        end. simpl_prog. eexists (_ :: t).
        split; [ rewrite Ht; flatten_trace; reflexivity | ].
        intros E. apply Exists_cons_tl, He, E.
    + unfold pure. exists []. rewrite app_nil_r.
      split; [ reflexivity | discriminate ].
Qed.

Lemma tell_privex_reports (env : environment) fuel sendBuff sendBuffLen
    (s : state) :
  exists t,
    trace (snd (tell_privex env fuel sendBuff sendBuffLen s)) = trace s ++ t /\
    (fst (tell_privex env fuel sendBuff sendBuffLen s) = Some EXIT_FAILURE ->
     reports_error t).
Proof.
  unfold tell_privex. destruct (handle_missing s).
  - unfold bind. destruct (setup_privex_client_reports env s) as (t0 & Ht0 & He0).
    destruct (setup_privex_client env s) as [r s1]. cbn [fst snd] in *.
    destruct (Z.eqb_spec r EXIT_SUCCESS) as [-> | N]; cbn [negb].
    + destruct (tell_privex_loop_reports env fuel sendBuff sendBuffLen
                  sendBuffLen s1) as (t & Ht & He).
      exists (t0 ++ t).
      split; [ rewrite Ht, Ht0, <- app_assoc; reflexivity | ].
      intros E. apply reports_error_app_r, He, E.
    + run. eexists (t0 ++ [_]).
      split; [ rewrite Ht0, <- app_assoc; reflexivity | ].
      intros _. apply reports_error_app_l, He0, N.
  - apply tell_privex_loop_reports.
Qed.

Lemma load_loop_reports (env : environment) fuel :
  forall result s,
    exists t,
      trace (snd (load_loop env fuel result s)) = trace s ++ t /\
      (forall r, fst (load_loop env fuel result s) = Some r ->
                 r <> EXIT_SUCCESS ->
                 result <> EXIT_SUCCESS \/ reports_error t).
Proof.
  induction fuel as [ | fuel IH ]; intros result s; cbn [load_loop].
  - unfold pure. exists []. rewrite app_nil_r. split; [ reflexivity | discriminate ].
  - destruct (Z.eqb_spec result EXIT_SUCCESS) as [-> | Hne].
    + unfold_prog. step. destruct (negb (rv r =? -1)).
      * match goal with
        | |- context [tell_privex env fuel ?b ?l ?st] =>
          destruct (tell_privex_reports env fuel b l st) as (t1 & Ht1 & He1);
          destruct (tell_privex_trace env fuel b l st)
            as (_ & t1' & _ & _ & _ & Hr);
          destruct (tell_privex env fuel b l st) as [[result' | ] s2]
        end; simpl_prog; cbn [fst snd] in *.
        -- destruct (IH result' s2) as (t2 & Ht2 & He2).
           exists ((c_getline, r) :: t1 ++ t2).
           split; [ rewrite Ht2, Ht1; flatten_trace; reflexivity | ].
           intros r0 E N. right. apply Exists_cons_tl.
           destruct (He2 r0 E N) as [Hbad | Hrep].
           ++ apply reports_error_app_l, He1.
              destruct (Hr result' eq_refl) as [ | [-> _]];
                [ contradiction | reflexivity ].
           ++ apply reports_error_app_r, Hrep.
        -- exists ((c_getline, r) :: t1).
           split; [ rewrite Ht1; flatten_trace; reflexivity | discriminate ].
      * simpl_prog. eexists. split; [ reflexivity | ].
        intros r0 E N. cbn [fst] in E. congruence.
    + unfold pure. exists []. rewrite app_nil_r.
      split; [ reflexivity | ]. intros r0 E N. left. exact Hne.
Qed.

Lemma echo_data_reports (env : environment) (s : state) :
  exists t,
    trace (snd (echo_data env s)) = trace s ++ t /\
    (forall v, fst (echo_data env s) = Returned v -> reports_error t).
Proof.
  unfold echo_data. destruct (handle_missing s).
  - unfold bind. destruct (setup_privex_server_reports env s) as (t0 & Ht0 & He0).
    destruct (setup_privex_server env s) as [r s1]. cbn [fst snd] in *.
    destruct (Z.eqb_spec r EXIT_SUCCESS) as [-> | N]; cbn [negb].
    + unfold echo_data_body.
      run; rewrite Ht0; flatten_trace; eexists; (split; [ reflexivity | ]);
        intros v E; first [ discriminate E
                          | apply reports_error_app_r; solve [ find_error ] ].
    + run. eexists (t0 ++ [_]).
      split; [ rewrite Ht0, <- app_assoc; reflexivity | ].
      intros v _. apply reports_error_app_l, He0, N.
  - unfold echo_data_body.
    run; flatten_trace; eexists; (split; [ reflexivity | ]);
      intros v E; first [ discriminate E | solve [ find_error ] ].
Qed.

Lemma dump_loop_reports (env : environment) fuel :
  forall s,
    exists t,
      trace (snd (dump_loop env fuel s)) = trace s ++ t /\
      (forall v, fst (dump_loop env fuel s) = Some (Exit v) -> reports_error t).
Proof.
  induction fuel as [ | fuel IH ]; intros s; cbn [dump_loop].
  - unfold pure. exists []. rewrite app_nil_r. split; [ reflexivity | discriminate ].
  - unfold_prog. step. destruct (rv r =? -1).
    + step. flatten_trace. eexists. split; [ reflexivity | ].
      intros v _. find_error.
    + destruct (rv r >? 0).
      * match goal with
        | |- context [echo_data env ?st] =>
          destruct (echo_data_reports env st) as (t & Ht & He);
          destruct (echo_data env st) as [[v | ] s2]
        end; simpl_prog; cbn [fst snd] in *.
        -- destruct (negb (v =? EXIT_SUCCESS)); simpl_prog.
           ++ exists ((c_epoll_wait (privex_epollfd s) 1 (-1), r) :: t).
              split; [ rewrite Ht; flatten_trace; reflexivity | ].
              intros v' _. apply Exists_cons_tl, (He v eq_refl).
           ++ destruct (IH s2) as (t' & Ht' & He').
              exists ((c_epoll_wait (privex_epollfd s) 1 (-1), r) :: t ++ t').
              split; [ rewrite Ht', Ht; flatten_trace; reflexivity | ].
              intros v' _. apply Exists_cons_tl, reports_error_app_l,
                (He v eq_refl).
        -- exists ((c_epoll_wait (privex_epollfd s) 1 (-1), r) :: t).
           split; [ rewrite Ht; flatten_trace; reflexivity | discriminate ].
      * destruct (IH (mkState (privex_sockfd s) (privex_port s)
                        (privex_epollfd s)
                        (trace s ++ [(c_epoll_wait (privex_epollfd s) 1 (-1), r)])))
          as (t' & Ht' & He').
        simpl_prog.
        exists ((c_epoll_wait (privex_epollfd s) 1 (-1), r) :: t').
        split; [ rewrite Ht'; flatten_trace; reflexivity | ].
        intros v E. apply Exists_cons_tl, (He' v E).
Qed.

(** X12. The program never fails silently: whenever [main] ends with an
    exit status other than [EXIT_SUCCESS], whether through the usage
    check, a failed send in [load] or a failed wait or receive in [dump],
    at least one diagnostic beginning with [Privex Error] has been written
    to the error stream during the run. *)
Theorem main_failure_is_reported (env : environment) (fuel : nat) (argc : Z)
    (argv : list string) (s : state) (v : Z) :
  fst (main env fuel argc argv s) = Some (Exit v) -> v <> EXIT_SUCCESS ->
  exists t,
    trace (snd (main env fuel argc argv s)) = trace s ++ t /\
    reports_error t.
Proof.
  unfold main.
  destruct ((argc =? 3) && (strncasecmp (arg argv 1) "dump" 4 =? 0)).
  - unfold dump. unfold_prog.
    match goal with
    | |- context [dump_loop env fuel ?st] =>
      destruct (dump_loop_reports env fuel st) as (t & Ht & He)
    end.
    intros E _. exists t. split; [ exact Ht | exact (He v E) ].
  - destruct ((argc =? 3) && (strncasecmp (arg argv 1) "load" 4 =? 0)).
    + unfold load. unfold_prog.
      match goal with
      | |- context [load_loop env fuel ?r ?st] =>
        destruct (load_loop_reports env fuel r st) as (t & Ht & He);
        destruct (load_loop env fuel r st) as [[r0 | ] s1]
      end; cbn [fst snd option_map] in *; [ | discriminate ].
      intros E N. inversion E; subst v. exists t. split; [ exact Ht | ].
      destruct (He r0 eq_refl N) as [Hbad | Hrep];
        [ destruct (Hbad eq_refl) | exact Hrep ].
    + unfold_prog. step. intros _ _. eexists. split; [ reflexivity | ].
      find_error.
Qed.

(** A line to send and nobody listening. *)
Lemma main_failure_is_reported_witness :
  exists t,
    trace (snd (main (env_refused [hello_line]) 2 3
                  ["privexctl"; "load"; "9000"]%string initial_state))
    = trace initial_state ++ t /\
    reports_error t.
Proof.
  apply (main_failure_is_reported (env_refused [hello_line]) 2 3
           ["privexctl"; "load"; "9000"]%string initial_state EXIT_FAILURE).
  - vm_compute. reflexivity.
  - discriminate.
Defined.

(** ** The handle invariant over whole runs *)

Lemma load_loop_joint (env : environment) fuel :
  forall result s, joint s -> joint (snd (load_loop env fuel result s)).
Proof.
  induction fuel as [ | fuel IH ]; intros result s J; cbn [load_loop];
    [ exact J | ].
  destruct (result =? EXIT_SUCCESS); [ | exact J ].
  unfold_prog. step. destruct (negb (rv r =? -1)); [ | exact J ].
  match goal with
  | |- context [tell_privex env fuel ?b ?l ?st] =>
    pose proof (tell_privex_joint env fuel b l st J) as J1;
    destruct (tell_privex env fuel b l st) as [[result' | ] s2]
  end; cbn [snd] in *; [ apply IH; exact J1 | exact J1 ].
Qed.

Lemma dump_loop_joint (env : environment) fuel :
  forall s, joint s -> joint (snd (dump_loop env fuel s)).
Proof.
  induction fuel as [ | fuel IH ]; intros s J; cbn [dump_loop]; [ exact J | ].
  unfold_prog. step. destruct (rv r =? -1); [ step; exact J | ].
  destruct (rv r >? 0); [ | apply IH; exact J ].
  match goal with
  | |- context [echo_data env ?st] =>
    pose proof (echo_data_joint env st J) as J1;
    destruct (echo_data env st) as [[v | ] s2]
  end; cbn [snd] in *; [ | exact J1 ].
  destruct (negb (v =? EXIT_SUCCESS)); [ exact J1 | apply IH; exact J1 ].
Qed.

(** X13. A whole run of [main], in either mode or through the usage
    error, and whether it ends or is still under way, keeps the handle
    invariant: started with the two descriptors both valid or both
    invalid, it leaves them both valid or both invalid. *)
Theorem main_keeps_handle_invariant (env : environment) (fuel : nat)
    (argc : Z) (argv : list string) (s : state) :
  joint s -> joint (snd (main env fuel argc argv s)).
Proof.
  intros J. unfold main.
  destruct ((argc =? 3) && (strncasecmp (arg argv 1) "dump" 4 =? 0)).
  - unfold dump. unfold_prog. apply dump_loop_joint. exact J.
  - destruct ((argc =? 3) && (strncasecmp (arg argv 1) "load" 4 =? 0)).
    + unfold load. unfold_prog.
      match goal with
      | |- context [load_loop env fuel ?r ?st] =>
        pose proof (load_loop_joint env fuel r st J) as J1;
        destruct (load_loop env fuel r st) as [o s1]
      end. exact J1.
    + unfold_prog. step. exact J.
Qed.

(** Load mode from the static initialisers, the connection being reset
    after one write. *)
Lemma main_keeps_handle_invariant_witness :
  joint (snd (main (env_cut 1 [hello_line]) 9 3
                ["privexctl"; "load"; "9000"]%string initial_state)).
Proof.
  apply (main_keeps_handle_invariant (env_cut 1 [hello_line]) 9 3
           ["privexctl"; "load"; "9000"]%string initial_state).
  right. split; reflexivity.
Defined.
